(** * Router simulation (project.c): a shallow embedding and its properties

    The C program keeps a fixed four-router topology, a per-router list of
    network addresses, and a history of resolved routes.  This file embeds
    its functions as Rocq functions over [Z], [string] and lists, with the
    console modelled as the list of results the successive [scanf] calls
    deliver, and C undefined behaviour modelled as an explicit outcome. *)

From Stdlib Require Import ZArith List Bool Lia.
From Stdlib Require Import Strings.Ascii Strings.String.
Import ListNotations.

Local Open Scope string_scope.
Local Open Scope Z_scope.

(** ** Constants of the program *)

Definition MAX_IP_LEN : Z := 16.
Definition NUM_ROUTERS : Z := 4.
Definition MAX_NETWORKS_PER_ROUTER : Z := 4.
Definition MAX_ROUTE_HISTORY : Z := 20.

(** ** The C library functions the program calls *)

Module LibC.

(** [isdigit] in the C locale. *)
Definition isdigit (c : ascii) : bool :=
  let n := Z.of_nat (nat_of_ascii c) in (48 <=? n) && (n <=? 57).

(** [isspace] in the C locale: space, and the controls 9 to 13. *)
Definition isspace (c : ascii) : bool :=
  let n := Z.of_nat (nat_of_ascii c) in (n =? 32) || ((9 <=? n) && (n <=? 13)).

Definition digit_val (c : ascii) : Z := Z.of_nat (nat_of_ascii c) - 48.

Definition digit_char (d : Z) : ascii := ascii_of_nat (Z.to_nat (48 + d)).

(** The digit run read by [strtol]-family functions, most significant
    digit first, on top of the value [acc] read so far. *)
Fixpoint parse_digits (acc : Z) (s : string) : Z :=
  match s with
  | String c r => if isdigit c then parse_digits (acc * 10 + digit_val c) r else acc
  | EmptyString => acc
  end.

Fixpoint skip_spaces (s : string) : string :=
  match s with
  | String c r => if isspace c then skip_spaces r else s
  | EmptyString => s
  end.

(** The integer a [strtol]-family function reads in base 10: leading white
    space, an optional sign, then digits. *)
Definition integer_value (s : string) : Z :=
  match skip_spaces s with
  | String "-" r => - parse_digits 0 r
  | String "+" r => parse_digits 0 r
  | r => parse_digits 0 r
  end.

Definition LLONG_MAX : Z := 9223372036854775807.
Definition LLONG_MIN : Z := - LLONG_MAX - 1.

(** [strtoll], and [strtol] where [long] has 64 bits: a value outside the
    type is replaced by the nearest bound of the type. *)
Definition strtoll (s : string) : Z :=
  Z.max LLONG_MIN (Z.min LLONG_MAX (integer_value s)).

(** Conversion of a [long] to a 32-bit [int]: the low 32 bits, signed. *)
Definition long_to_int (z : Z) : Z := (z + 2 ^ 31) mod 2 ^ 32 - 2 ^ 31.

(** [atoi(s)] is [(int) strtol(s, NULL, 10)] and [atoll(s)] is
    [strtoll(s, NULL, 10)], as the GNU C library defines them; ISO C leaves
    open what they return for a value outside the result type. *)
Definition atoi (s : string) : Z := long_to_int (strtoll s).
Definition atoll (s : string) : Z := strtoll s.

(** Decimal digits of a non-negative number, pushed in front of [acc]. *)
Fixpoint dec_digits (fuel : nat) (n : Z) (acc : string) : string :=
  match fuel with
  | O => acc
  | S f =>
      let acc' := String (digit_char (n mod 10)) acc in
      if n <? 10 then acc' else dec_digits f (n / 10) acc'
  end.

Definition dec_fuel (n : Z) : nat := S (Z.to_nat (Z.log2 n)).

(** The digits of a non-negative number, as [sprintf] writes them. *)
Definition digits (n : Z) : string := dec_digits (dec_fuel n) n "".

(** What [sprintf] writes for a [%d] or [%lld] conversion. *)
Definition dec (n : Z) : string :=
  if n <? 0 then String "-" (digits (- n)) else digits n.

(** [strtok] with the single delimiter ['.']: skip leading delimiters; the
    token runs to the next delimiter, which is overwritten by NUL, and the
    saved pointer is left just after it. *)
Definition is_dot (c : ascii) : bool := Ascii.eqb c ".".

Fixpoint skip_delims (s : string) : string :=
  match s with
  | String c r => if is_dot c then skip_delims r else s
  | EmptyString => s
  end.

Fixpoint span_token (s : string) : string * string :=
  match s with
  | String c r =>
      if is_dot c then (EmptyString, r)
      else let '(t, rest) := span_token r in (String c t, rest)
  | EmptyString => (EmptyString, EmptyString)
  end.

(** [None] is the NULL result; [Some (token, saved)] otherwise. *)
Definition strtok (s : string) : option (string * string) :=
  match skip_delims s with
  | EmptyString => None
  | s' => Some (span_token s')
  end.

(** [strncpy] of at most [n] characters into a buffer that is then
    NUL-terminated at index [n]. *)
Definition strncpy (s : string) (n : nat) : string := substring 0 n s.

End LibC.

Import LibC.

(** ** Utility functions *)

(** The [while] loop of [validate_number]. *)
Fixpoint all_digits (str : string) : bool :=
  match str with
  | String c r => if negb (isdigit c) then false else all_digits r
  | EmptyString => true
  end.

Definition validate_number (str : string) : bool :=
  match str with
  | EmptyString => false
  | _ => all_digits str
  end.

(** The [while (ptr)] loop of [validate_ip].  [ptr] is the current token
    with the pointer [strtok] saved after it.  The loop runs once per token,
    so a fuel above the length of the buffer is never used up
    (see [validate_loop_total]). *)
Fixpoint validate_loop (fuel : nat) (ptr : option (string * string))
    (dots octet_count : Z) : option bool :=
  match ptr with
  | None =>
      if negb (octet_count =? 4) || negb (dots =? 3) then Some false else Some true
  | Some (tok, saved) =>
      match fuel with
      | O => None
      | S fuel' =>
          let octet_count := octet_count + 1 in
          if negb (validate_number tok) then Some false
          else
            let num := atoi tok in
            if (num <? 0) || (num >? 255) then Some false
            else
              let ptr' := strtok saved in
              let dots := match ptr' with Some _ => dots + 1 | None => dots end in
              validate_loop fuel' ptr' dots octet_count
      end
  end.

Definition validate_ip (ip_str : string) : bool :=
  match ip_str with
  | EmptyString => false
  | _ =>
      let temp_ip := strncpy ip_str (Z.to_nat (MAX_IP_LEN - 1)) in
      match validate_loop (S (length temp_ip)) (strtok temp_ip) 0 0 with
      | Some b => b
      | None => false
      end
  end.

(** ** Outcomes of code that reads the console

    [Ok a]: the code ran to its end with result [a].
    [Blocked]: a [scanf] found the input used up and the program waits.
    [Unfinished]: a loop was stopped by the iteration bound of the model.
    [Undefined u]: the C code has no defined behaviour from here on. *)

Inductive undefined : Type :=
  | OutOfBounds (array : string) (index : Z)
  | Uninitialised (variable : string).

Inductive outcome (A : Type) : Type :=
  | Ok (a : A)
  | Blocked
  | Unfinished
  | Undefined (u : undefined).

Arguments Ok {A} a.
Arguments Blocked {A}.
Arguments Unfinished {A}.
Arguments Undefined {A} u.

Definition bind {A B : Type} (m : outcome A) (k : A -> outcome B) : outcome B :=
  match m with
  | Ok a => k a
  | Blocked => Blocked
  | Unfinished => Unfinished
  | Undefined u => Undefined u
  end.

Notation "x <- m ;; k" := (bind m (fun x => k))
  (at level 61, m at next level, right associativity).
Notation "' p <- m ;; k" := (bind m (fun x => let 'p := x in k))
  (at level 61, p pattern, m at next level, right associativity).

(** Reading and writing a C array held as a list. *)
Definition array_get {A : Type} (name : string) (a : list A) (i : Z) : outcome A :=
  if i <? 0 then Undefined (OutOfBounds name i)
  else match nth_error a (Z.to_nat i) with
       | Some x => Ok x
       | None => Undefined (OutOfBounds name i)
       end.

Fixpoint list_set {A : Type} (a : list A) (i : nat) (x : A) : list A :=
  match a, i with
  | [], _ => []
  | _ :: t, O => x :: t
  | y :: t, S i' => y :: list_set t i' x
  end.

Definition array_set {A : Type} (name : string) (a : list A) (i : Z) (x : A)
    : outcome (list A) :=
  if (0 <=? i) && (i <? Z.of_nat (List.length a)) then Ok (list_set a (Z.to_nat i) x)
  else Undefined (OutOfBounds name i).

(** The console: what the successive [scanf("%s")] calls deliver, and what
    the successive [scanf("%d")] calls deliver ([None] when the conversion
    fails and the line is discarded). *)
Record stdin : Type := { words : list string; ints : list (option Z) }.

(** ** Router configuration and [find_router_by_ip] *)

(** Row [i] of [router_configs] holds the slots of [router_configs[i].ip]
    that were written at start-up. *)
Record config : Type := {
  router_configs : list (list string);
  num_networks : list Z
}.

(** The inner [for] loop: is [ip] among the slots [j], [j+1], ... below [n]? *)
Fixpoint row_has (ip : string) (row : list string) (j n : Z) : bool :=
  match row with
  | [] => false
  | x :: t =>
      if j <? n then (if String.eqb x ip then true else row_has ip t (j + 1) n)
      else false
  end.

(** The outer [for] loop, from router index [i] on. *)
Fixpoint find_router_from (ip : string) (rows : list (list string)) (counts : list Z)
    (i : Z) : Z :=
  match rows, counts with
  | row :: rows', n :: counts' =>
      if row_has ip row 0 n then i + 1 else find_router_from ip rows' counts' (i + 1)
  | _, _ => 0
  end.

Definition find_router_by_ip (cfg : config) (ip : string) : Z :=
  find_router_from ip (router_configs cfg) (num_networks cfg) 0.

(** ** [concat_router_ids] *)

Definition concat_router_ids (current_val new_id : Z) : Z :=
  let s1 := dec current_val in
  let s2 := dec new_id in
  atoll (s1 ++ s2).

(** ** Topology *)

Definition connection_matrix : list (list Z) :=
  [ [1; 1; 0; 1];
    [1; 1; 1; 0];
    [0; 1; 1; 1];
    [1; 0; 1; 1] ].

(** [connection_matrix[i][j]]. *)
Definition matrix_read (i j : Z) : outcome Z :=
  row <- array_get "connection_matrix" connection_matrix i ;;
  array_get "connection_matrix" row j.

(** ** Start-up: the two input loops of [run_routing_simulation] *)

(** [do { scanf("%d", &num_networks[i]) } while (out of range)]. *)
Fixpoint read_count (inp : list (option Z)) : outcome (Z * list (option Z)) :=
  match inp with
  | [] => Blocked
  | x :: rest =>
      let n := match x with Some n => n | None => -1 end in
      if (n <? 0) || (n >? MAX_NETWORKS_PER_ROUTER) then read_count rest
      else Ok (n, rest)
  end.

Fixpoint read_counts (routers : nat) (inp : list (option Z))
    : outcome (list Z * list (option Z)) :=
  match routers with
  | O => Ok ([], inp)
  | S k =>
      '(n, rest) <- read_count inp ;;
      '(ns, rest') <- read_counts k rest ;;
      Ok (n :: ns, rest')
  end.

(** [scanf("%s", buf)] into a buffer of [MAX_IP_LEN] characters. *)
Definition scan_word (w : string) : outcome string :=
  if Z.of_nat (length w) <? MAX_IP_LEN then Ok w
  else Undefined (OutOfBounds "input_ip" MAX_IP_LEN).

(** [do { scanf("%s", input_ip) } while (!validate_ip(input_ip))]. *)
Fixpoint read_ip (inp : list string) : outcome (string * list string) :=
  match inp with
  | [] => Blocked
  | w :: rest =>
      input_ip <- scan_word w ;;
      if validate_ip input_ip then Ok (input_ip, rest) else read_ip rest
  end.

(** The loop over [j] for one router. *)
Fixpoint read_row (n : nat) (inp : list string) : outcome (list string * list string) :=
  match n with
  | O => Ok ([], inp)
  | S k =>
      '(ip, rest) <- read_ip inp ;;
      '(ips, rest') <- read_row k rest ;;
      Ok (ip :: ips, rest')
  end.

(** The loop over [i]. *)
Fixpoint read_rows (counts : list Z) (inp : list string)
    : outcome (list (list string) * list string) :=
  match counts with
  | [] => Ok ([], inp)
  | n :: counts' =>
      '(row, rest) <- read_row (Z.to_nat n) inp ;;
      '(rows, rest') <- read_rows counts' rest ;;
      Ok (row :: rows, rest')
  end.

(** Step 1 of [run_routing_simulation]: on [Ok] the program prints
    "IP configurations loaded successfully" and enters the routing loop. *)
Definition load_config (i : stdin) : outcome (config * stdin) :=
  '(counts, ints') <- read_counts (Z.to_nat NUM_ROUTERS) (ints i) ;;
  '(rows, words') <- read_rows counts (words i) ;;
  Ok ({| router_configs := rows; num_networks := counts |},
      {| words := words'; ints := ints' |}).

(** ** Path resolution *)

(** The variables of the manual route definition.  [path_ids] is a history
    variable: the ids handed to [concat_router_ids] so far, in call order;
    the program itself keeps them only in the encoded form [route_path]. *)
Record manual_state : Type := {
  current_router : Z;
  route_path : Z;
  path_ids : list Z;
  intermediate_routers : list Z;
  router_index : Z
}.

(** [route_path = concat_router_ids(route_path, id)]. *)
Definition append_id (st : manual_state) (id : Z) : manual_state :=
  {| current_router := current_router st;
     route_path := concat_router_ids (route_path st) id;
     path_ids := (path_ids st ++ [id])%list;
     intermediate_routers := intermediate_routers st;
     router_index := router_index st |}.

(** How one pass through the body of the [do ... while] leaves it: by
    [break], or at the loop test (reached by [continue] or by falling off
    the end of the body). *)
Inductive flow : Type := Break | LoopTest.

(** One pass through the body, [scanned] being what [scanf] delivered. *)
Definition manual_step (dest_router : Z) (st : manual_state) (scanned : option Z)
    : outcome (flow * manual_state) :=
  let next_router := match scanned with Some n => n | None => -1 end in
  if next_router =? 0 then
    c <- matrix_read (current_router st - 1) (dest_router - 1) ;;
    if c =? 1 then Ok (Break, append_id st dest_router)
    else Ok (LoopTest, st)
  else if (next_router <? 1) || (next_router >? NUM_ROUTERS) then
    Ok (LoopTest, st)
  else if next_router =? dest_router then
    c <- matrix_read (current_router st - 1) (dest_router - 1) ;;
    if c =? 1 then Ok (Break, append_id st dest_router)
    else Ok (LoopTest, st)
  else
    c <- matrix_read (current_router st - 1) (next_router - 1) ;;
    if c =? 1 then
      buf <- array_set "intermediate_routers" (intermediate_routers st)
               (router_index st) next_router ;;
      Ok (LoopTest,
          {| current_router := next_router;
             route_path := concat_router_ids (route_path st) next_router;
             path_ids := (path_ids st ++ [next_router])%list;
             intermediate_routers := buf;
             router_index := router_index st + 1 |})
    else Ok (LoopTest, st).

(** [do { body } while (current_router != dest_router)]. *)
Fixpoint manual_loop (dest_router : Z) (st : manual_state) (inp : list (option Z))
    : outcome (manual_state * list (option Z)) :=
  match inp with
  | [] => Blocked
  | scanned :: rest =>
      '(fl, st') <- manual_step dest_router st scanned ;;
      match fl with
      | Break => Ok (st', rest)
      | LoopTest =>
          if negb (current_router st' =? dest_router) then manual_loop dest_router st' rest
          else Ok (st', rest)
      end
  end.

(** The state on entry to the manual route definition. *)
Definition manual_init (source_router : Z) : manual_state :=
  {| current_router := source_router;
     route_path := concat_router_ids 0 source_router;
     path_ids := [source_router];
     intermediate_routers := repeat 0 (Z.to_nat NUM_ROUTERS);
     router_index := 0 |}.

(** A resolved route at [route_complete]: the encoded path and the ids it
    was built from.  ([router_index] and [intermediate_routers] are not part
    of it: the [goto] of the direct route jumps over their initialisers.) *)
Record route : Type := { encoded : Z; ids : list Z }.

Definition manual_route (source_router dest_router : Z) (inp : list (option Z))
    : outcome (route * list (option Z)) :=
  '(st, rest) <- manual_loop dest_router (manual_init source_router) inp ;;
  Ok ({| encoded := route_path st; ids := path_ids st |}, rest).

(** "Determine New Route": from [direct_connection] to [route_complete]. *)
Definition resolve (source_router dest_router : Z) (inp : list (option Z))
    : outcome (route * list (option Z)) :=
  direct_connection <- matrix_read (source_router - 1) (dest_router - 1) ;;
  let route_path := concat_router_ids 0 source_router in
  if direct_connection =? 1 then
    match inp with
    | [] => Blocked
    | None :: _ => Undefined (Uninitialised "choice")
    | Some choice :: rest =>
        if choice =? 1 then
          Ok ({| encoded := concat_router_ids route_path dest_router;
                 ids := [source_router; dest_router] |}, rest)
        else manual_route source_router dest_router rest
    end
  else manual_route source_router dest_router inp.

(** ** Route history *)

(** The first [history_count] rows of [route_history] and
    [intermediate_history], oldest first. *)
Definition history : Type := list (string * Z).

Definition history_count (h : history) : Z := Z.of_nat (List.length h).

(** [sprintf(current_route_key, "%s*%s", source_ip, destination_ip)]. *)
Definition route_key (source_ip destination_ip : string) : string :=
  source_ip ++ "*" ++ destination_ip.

(** The scan for [final_history_index], from row [l2] on; [-1] if none. *)
Fixpoint history_scan (current_route_key : string) (h : history) (l2 : Z) : Z :=
  match h with
  | [] => -1
  | (k, _) :: h' =>
      if String.eqb k current_route_key then l2
      else history_scan current_route_key h' (l2 + 1)
  end.

(** "Save History": the new history and whether the route was logged. *)
Definition save_history (h : history) (current_route_key : string) (path : Z)
    : history * bool :=
  if history_count h <? MAX_ROUTE_HISTORY then ((h ++ [(current_route_key, path)])%list, true)
  else (h, false).

(** What one query shows. *)
Inductive report : Type :=
  | HistoryFound (path : Z)
  | NewRouteLogged (r : route)
  | HistoryFull (r : route).

(** From "Check History" to the end of its [if]/[else]. *)
Definition serve_query (h : history) (source_ip destination_ip : string)
    (source_router dest_router : Z) (inp : list (option Z))
    : outcome (report * history * list (option Z)) :=
  let current_route_key := route_key source_ip destination_ip in
  let final_history_index := history_scan current_route_key h 0 in
  if negb (final_history_index =? -1) then
    e <- array_get "intermediate_history" h final_history_index ;;
    Ok (HistoryFound (snd e), h, inp)
  else
    '(r, rest) <- resolve source_router dest_router inp ;;
    let '(h', logged) := save_history h current_route_key (encoded r) in
    Ok (if logged then NewRouteLogged r else HistoryFull r, h', rest).

(** [do { scanf("%s", ip); ... } while (router == 0)]: the first word that is
    a valid address known to some router, with that router. *)
Fixpoint read_endpoint (cfg : config) (inp : list string)
    : outcome (string * Z * list string) :=
  match inp with
  | [] => Blocked
  | w :: rest =>
      ip <- scan_word w ;;
      if negb (validate_ip ip) then read_endpoint cfg rest
      else
        let router := find_router_by_ip cfg ip in
        if router =? 0 then read_endpoint cfg rest else Ok (ip, router, rest)
  end.

(** One pass through the body of the routing loop, up to the prompt. *)
Definition routing_query (cfg : config) (h : history) (i : stdin)
    : outcome (report * history * stdin) :=
  '(source_ip, source_router, w1) <- read_endpoint cfg (words i) ;;
  '(destination_ip, dest_router, w2) <- read_endpoint cfg w1 ;;
  '(rep, h', ints') <-
     serve_query h source_ip destination_ip source_router dest_router (ints i) ;;
  Ok (rep, h', {| words := w2; ints := ints' |}).

(** "Continue Prompt". *)
Definition read_continue (inp : list (option Z)) : outcome (Z * list (option Z)) :=
  match inp with
  | [] => Blocked
  | Some n :: rest => Ok (n, rest)
  | None :: rest => Ok (1, rest)
  end.

(** [while (continue_flag == 0 && history_count < MAX_ROUTE_HISTORY)], run
    for at most [bound] queries; the result lists what each query showed. *)
Fixpoint routing_loop (bound : nat) (cfg : config) (continue_flag : Z) (h : history)
    (i : stdin) : outcome (list report * history * stdin) :=
  if (continue_flag =? 0) && (history_count h <? MAX_ROUTE_HISTORY) then
    match bound with
    | O => Unfinished
    | S bound' =>
        '(rep, h', i') <- routing_query cfg h i ;;
        '(flag, ints') <- read_continue (ints i') ;;
        '(reps, h'', i'') <-
           routing_loop bound' cfg flag h' {| words := words i'; ints := ints' |} ;;
        Ok (rep :: reps, h'', i'')
    end
  else Ok ([], h, i).

(** [run_routing_simulation], from empty history. *)
Definition run_routing_simulation (bound : nat) (i : stdin)
    : outcome (list report * history * stdin) :=
  '(cfg, i') <- load_config i ;;
  routing_loop bound cfg 0 [] i'.

(** ** Vocabulary of the properties *)

(** [adjacent a b]: routers [a] and [b] (numbered from 1) have
    [connection_matrix] entry 1. *)
Definition adjacent (a b : Z) : bool :=
  match matrix_read (a - 1) (b - 1) with
  | Ok c => c =? 1
  | _ => false
  end.

(** Every consecutive pair of the sequence is adjacent. *)
Fixpoint chain_adjacent (p : list Z) : bool :=
  match p with
  | a :: ((b :: _) as t) => adjacent a b && chain_adjacent t
  | _ => true
  end.

(** The digit string obtained by writing the ids one after the other. *)
Definition concat_dec (p : list Z) : string :=
  fold_right (fun id s => dec id ++ s) "" p.

(** Some router is followed by itself in the sequence. *)
Fixpoint uses_self_link (p : list Z) : bool :=
  match p with
  | a :: ((b :: _) as t) => (a =? b) || uses_self_link t
  | _ => false
  end.

(** A hop proposal the specification calls rejected: an id outside [1, R] (the
    finalize request 0 apart), a finalize request or a proposal of the
    destination while the destination is not adjacent, or a proposal that
    is not adjacent to the current router. *)
Definition rejected (dest_router : Z) (st : manual_state) (scanned : option Z) : bool :=
  let next_router := match scanned with Some n => n | None => -1 end in
  if next_router =? 0 then negb (adjacent (current_router st) dest_router)
  else if (next_router <? 1) || (next_router >? NUM_ROUTERS) then true
  else if next_router =? dest_router then negb (adjacent (current_router st) dest_router)
  else negb (adjacent (current_router st) next_router).

(** The state after an accepted intermediate hop. *)
Definition hop_taken (st st' : manual_state) (next_router : Z) : Prop :=
  current_router st' = next_router /\
  route_path st' = concat_router_ids (route_path st) next_router /\
  path_ids st' = (path_ids st ++ [next_router])%list /\
  router_index st' = router_index st + 1 /\
  0 <= router_index st < Z.of_nat (List.length (intermediate_routers st)) /\
  intermediate_routers st'
  = list_set (intermediate_routers st) (Z.to_nat (router_index st)) next_router.

(** What holds of the manual state at every loop test: the appended ids
    run from the source to the current router along links of the matrix;
    [route_path] is their decimal concatenation; the buffer has its declared
    length, the index lies within it, and [route_path] has one digit per
    appended id. *)
Record manual_inv (source_router : Z) (st : manual_state) : Prop := {
  inv_first : exists rest, path_ids st = source_router :: rest;
  inv_last : exists front, path_ids st = (front ++ [current_router st])%list;
  inv_chain : chain_adjacent (path_ids st) = true;
  inv_range : Forall (fun id => 1 <= id <= NUM_ROUTERS) (path_ids st);
  inv_encoded : dec (route_path st) = concat_dec (path_ids st);
  inv_buffer : List.length (intermediate_routers st) = Z.to_nat NUM_ROUTERS;
  inv_index : 0 <= router_index st <= NUM_ROUTERS;
  inv_size : 0 < route_path st < 10 ^ (router_index st + 1)
}.

(** A complete path from [source_router] to [dest_router]. *)
Record complete_path (source_router dest_router : Z) (p : list Z) : Prop := {
  path_first : exists rest, p = source_router :: rest;
  path_last : exists front, p = (front ++ [dest_router])%list;
  path_chain : chain_adjacent p = true;
  path_range : Forall (fun id => 1 <= id <= NUM_ROUTERS) p
}.

(** The path as "Path established" prints it after the manual loop: the
    source router, the first [router_index] elements of
    [intermediate_routers], the destination router. *)
Definition displayed_path (source_router dest_router : Z) (st : manual_state) : list Z :=
  (source_router
   :: firstn (Z.to_nat (router_index st)) (intermediate_routers st) ++ [dest_router])%list.

(** The verdict of [validate_ip] once the tokens are used up. *)
Definition verdict (dots octet_count : Z) : bool :=
  if negb (octet_count =? 4) || negb (dots =? 3) then false else true.

(** Only digits and dots occur in the string. *)
Fixpoint ip_chars (s : string) : bool :=
  match s with
  | String c r => (isdigit c || is_dot c) && ip_chars r
  | EmptyString => true
  end.

(** An address as the input loops hand it on: it fits its buffer and
    [validate_ip] accepts it. *)
Definition scanned_ip (ip : string) : bool :=
  (Z.of_nat (length ip) <? MAX_IP_LEN) && validate_ip ip.

(** Queries that were resolved and logged, oldest first, each with the
    path stored for it; and the history they leave. *)
Definition logged_query : Type := string * string * Z.

Definition history_of (queries : list logged_query) : history :=
  map (fun q : logged_query => (route_key (fst (fst q)) (snd (fst q)), snd q)) queries.

(** The path of the first logged query with the given source and
    destination address, both compared as strings. *)
Fixpoint first_match (source_ip destination_ip : string) (queries : list logged_query)
    : option Z :=
  match queries with
  | [] => None
  | (s, d, path) :: queries' =>
      if String.eqb s source_ip && String.eqb d destination_ip then Some path
      else first_match source_ip destination_ip queries'
  end.

(** A session that fills the history: router 1 and router 2 serve four
    networks each, routers 3 and 4 one each; twenty queries from a network
    of router 1 to a network of router 2 or 4 follow, each answered by the
    direct path and by 0 at the continue prompt; a twenty-first query, from
    router 2 to router 3, is waiting on the console. *)
Module FullHistory.

Definition sources : list string := ["1.1.1.1"; "1.1.1.2"; "1.1.1.3"; "1.1.1.4"].
Definition dests : list string := ["2.2.2.1"; "2.2.2.2"; "2.2.2.3"; "2.2.2.4"; "4.4.4.1"].
Definition queries : list (string * string) := list_prod sources dests.

Definition console : stdin :=
  {| words :=
       (sources ++ ["2.2.2.1"; "2.2.2.2"; "2.2.2.3"; "2.2.2.4"; "3.3.3.1"; "4.4.4.1"]
        ++ flat_map (fun q : string * string => [fst q; snd q]) queries
        ++ ["2.2.2.1"; "3.3.3.1"])%list;
     ints :=
       ([Some 4; Some 4; Some 1; Some 1]
        ++ flat_map (fun _ : string * string => [Some 1; Some 0]) queries
        ++ [Some 1; Some 1])%list |}.

End FullHistory.

(** The validity rule in the words of the specification: exactly four
    dot-separated tokens, none empty, all digits, each at most 255. *)
Module Spec.

Fixpoint split_dots (s : string) : list string :=
  match s with
  | EmptyString => [EmptyString]
  | String c r =>
      if is_dot c then EmptyString :: split_dots r
      else match split_dots r with
           | t :: ts => String c t :: ts
           | [] => [String c EmptyString]
           end
  end.

Definition octet (t : string) : bool :=
  validate_number t && (parse_digits 0 t <=? 255).

Definition valid_ip (s : string) : bool :=
  (Z.of_nat (List.length (split_dots s)) =? 4) && forallb octet (split_dots s).

End Spec.

(** ** Vocabulary of the further properties *)

(** The tokens [strtok] yields on a buffer, one call after the other: the
    non-empty runs of characters between dots. *)
Definition strtok_tokens (s : string) : list string :=
  filter (fun t => negb (String.eqb t "")) (Spec.split_dots s).

(** The two tests the loop of [validate_ip] puts a token to. *)
Definition token_passes (tok : string) : bool :=
  validate_number tok && negb ((atoi tok <? 0) || (atoi tok >? 255)).

(** The router ids spelled by the decimal digits of an encoded path. *)
Definition decode_path (n : Z) : list Z :=
  map digit_val (list_ascii_of_string (dec n)).

Definition is_logged (rep : report) : bool :=
  match rep with NewRouteLogged _ => true | _ => false end.

Definition is_full (rep : report) : bool :=
  match rep with HistoryFull _ => true | _ => false end.

(** A history entry that is sound for a configuration: its key joins two
    addresses that routers of the configuration own, it fits the
    [MAX_IP_LEN * 2 + 1] characters of a history row, and its integer spells
    a complete path between the two owners. *)
Definition sound_entry (cfg : config) (e : string * Z) : Prop :=
  exists source_ip destination_ip p,
    fst e = route_key source_ip destination_ip /\
    Z.of_nat (length (fst e)) < MAX_IP_LEN * 2 + 1 /\
    find_router_by_ip cfg source_ip <> 0 /\
    find_router_by_ip cfg destination_ip <> 0 /\
    complete_path (find_router_by_ip cfg source_ip)
                  (find_router_by_ip cfg destination_ip) p /\
    dec (snd e) = concat_dec p.

(** * Properties *)

(** ** Decimal conversions: [sprintf] and [atoll] *)

Section Decimal.

Lemma digit_cases (d : Z) :
  0 <= d < 10 ->
  d = 0 \/ d = 1 \/ d = 2 \/ d = 3 \/ d = 4 \/ d = 5 \/ d = 6 \/ d = 7 \/ d = 8 \/ d = 9.
Proof. lia. Qed.

Lemma isdigit_digit_char (d : Z) : 0 <= d < 10 -> isdigit (digit_char d) = true.
Proof.
  intros H. destruct (digit_cases d H) as [-> | [-> | [-> | [-> | [-> | [-> | [-> | [-> | [-> | ->]]]]]]]]];
    reflexivity.
Qed.

Lemma digit_val_digit_char (d : Z) : 0 <= d < 10 -> digit_val (digit_char d) = d.
Proof.
  intros H. destruct (digit_cases d H) as [-> | [-> | [-> | [-> | [-> | [-> | [-> | [-> | [-> | ->]]]]]]]]];
    reflexivity.
Qed.

Lemma append_nil_r (s : string) : s ++ "" = s.
Proof. induction s as [| c s IH]; simpl; [reflexivity | now rewrite IH]. Qed.

Lemma append_assoc (s1 s2 s3 : string) : (s1 ++ s2) ++ s3 = s1 ++ (s2 ++ s3).
Proof. induction s1 as [| c s1 IH]; simpl; [reflexivity | now rewrite IH]. Qed.

(** The accumulator of [dec_digits] is a suffix of its result. *)
Lemma dec_digits_acc (f : nat) : forall n acc,
  dec_digits f n acc = dec_digits f n "" ++ acc.
Proof.
  induction f as [| f IH]; intros n acc; simpl; [reflexivity |].
  destruct (n <? 10); [reflexivity |].
  rewrite (IH _ (String _ acc)), (IH _ (String _ "")).
  now rewrite append_assoc.
Qed.

(** Any fuel that covers the number of digits gives the same digits. *)
Lemma dec_digits_fuel (f1 : nat) : forall f2 n acc,
  0 <= n < 10 ^ Z.of_nat f1 -> n < 10 ^ Z.of_nat f2 ->
  (0 < f1)%nat -> (0 < f2)%nat ->
  dec_digits f1 n acc = dec_digits f2 n acc.
Proof.
  induction f1 as [| f1 IH]; intros f2 n acc H1 H2 P1 P2; [lia |].
  destruct f2 as [| f2]; [lia |]. simpl.
  destruct (Z.ltb_spec n 10) as [Hs | Hl]; [reflexivity |].
  rewrite Nat2Z.inj_succ, Z.pow_succ_r in H1, H2 by lia.
  assert (E1 : n / 10 < 10 ^ Z.of_nat f1) by (apply Z.div_lt_upper_bound; lia).
  assert (E2 : n / 10 < 10 ^ Z.of_nat f2) by (apply Z.div_lt_upper_bound; lia).
  assert (E0 : 1 <= n / 10) by (apply Z.div_le_lower_bound; lia).
  apply IH; try lia.
  - destruct f1; [simpl in E1; lia | lia].
  - destruct f2; [simpl in E2; lia | lia].
Qed.

Lemma dec_fuel_enough (n : Z) : 0 <= n -> n < 10 ^ Z.of_nat (dec_fuel n).
Proof.
  intros H. unfold dec_fuel. rewrite Nat2Z.inj_succ, Z2Nat.id by apply Z.log2_nonneg.
  destruct (Z.eq_dec n 0) as [-> | Hn]; [reflexivity |].
  destruct (Z.log2_spec n) as [_ Hu]; [lia |].
  eapply Z.lt_le_trans; [exact Hu |].
  apply Z.pow_le_mono_l. lia.
Qed.

Lemma dec_nonneg (n : Z) : 0 <= n -> dec n = digits n.
Proof. intros H. unfold dec. destruct (Z.ltb_spec n 0); [lia | reflexivity]. Qed.

Lemma digits_small (n : Z) : 0 <= n < 10 -> digits n = String (digit_char n) "".
Proof.
  intros H. unfold digits, dec_fuel. simpl.
  rewrite Z.mod_small by lia.
  destruct (Z.ltb_spec n 10); [reflexivity | lia].
Qed.

Lemma digits_step (n : Z) :
  10 <= n -> digits n = digits (n / 10) ++ String (digit_char (n mod 10)) "".
Proof.
  intros H. unfold digits at 1.
  pose proof (dec_fuel_enough n ltac:(lia)) as Hf.
  unfold dec_fuel in *. simpl dec_digits.
  destruct (Z.ltb_spec n 10); [lia |].
  rewrite dec_digits_acc. f_equal.
  rewrite Nat2Z.inj_succ, Z.pow_succ_r in Hf by lia.
  assert (E0 : 1 <= n / 10) by (apply Z.div_le_lower_bound; lia).
  assert (E1 : n / 10 < 10 ^ Z.of_nat (Z.to_nat (Z.log2 n)))
    by (apply Z.div_lt_upper_bound; lia).
  unfold digits. apply dec_digits_fuel.
  - lia.
  - apply dec_fuel_enough. lia.
  - destruct (Z.to_nat (Z.log2 n)); [simpl in E1; lia | lia].
  - unfold dec_fuel. lia.
Qed.

(** [10 * m + d] has the digits of [m] followed by the digit [d]. *)
Lemma digits_snoc (m d : Z) :
  0 < m -> 0 <= d < 10 ->
  digits (m * 10 + d) = digits m ++ String (digit_char d) "".
Proof.
  intros Hm Hd. rewrite digits_step by lia.
  replace ((m * 10 + d) / 10) with m by (apply Z.div_unique with d; lia).
  replace ((m * 10 + d) mod 10) with d by (apply Z.mod_unique with m; lia).
  reflexivity.
Qed.

Lemma all_digits_app (s1 s2 : string) :
  all_digits (s1 ++ s2) = all_digits s1 && all_digits s2.
Proof.
  induction s1 as [| c s1 IH]; simpl; [reflexivity |].
  destruct (isdigit c); simpl; [exact IH | reflexivity].
Qed.

Lemma parse_digits_app (s1 : string) : forall s2 a,
  all_digits s1 = true ->
  parse_digits a (s1 ++ s2) = parse_digits (parse_digits a s1) s2.
Proof.
  induction s1 as [| c s1 IH]; intros s2 a H; simpl in *; [reflexivity |].
  destruct (isdigit c); simpl in H; [now apply IH | discriminate].
Qed.

(** Induction on a non-negative number along its decimal digits. *)
Lemma decimal_ind (P : Z -> Prop) :
  (forall n, 0 <= n < 10 -> P n) ->
  (forall n, 10 <= n -> P (n / 10) -> P n) ->
  forall n, 0 <= n -> P n.
Proof.
  intros Hs Hl n Hn. generalize Hn. pattern n. apply Z_lt_induction; [| exact Hn].
  intros x IH Hx. destruct (Z_lt_ge_dec x 10) as [Hlt | Hge].
  - apply Hs. lia.
  - assert (0 <= x / 10) by (apply Z.div_pos; lia).
    assert (x / 10 < x) by (apply Z.div_lt; lia).
    apply Hl; [lia |]. apply IH; lia.
Qed.

Lemma all_digits_digits (n : Z) : 0 <= n -> all_digits (digits n) = true.
Proof.
  revert n. apply decimal_ind.
  - intros n H. rewrite digits_small by exact H. simpl.
    now rewrite isdigit_digit_char.
  - intros n H IH. rewrite digits_step, all_digits_app, IH by exact H. simpl.
    rewrite isdigit_digit_char; [reflexivity |]. apply Z.mod_pos_bound. lia.
Qed.

Lemma digits_head (n : Z) :
  0 <= n -> exists c r, digits n = String c r /\ isdigit c = true.
Proof.
  revert n. apply decimal_ind.
  - intros n H. rewrite digits_small by exact H.
    eexists _, _. split; [reflexivity |]. now apply isdigit_digit_char.
  - intros n H (c & r & E & D). rewrite digits_step, E by exact H.
    eexists _, _. split; [reflexivity | exact D].
Qed.

Lemma parse_digits_snoc (s : string) (a d : Z) :
  all_digits s = true -> 0 <= d < 10 ->
  parse_digits a (s ++ String (digit_char d) "") = parse_digits a s * 10 + d.
Proof.
  intros Hs Hd. rewrite parse_digits_app by exact Hs. simpl.
  now rewrite isdigit_digit_char, digit_val_digit_char.
Qed.

(** Reading back what was written. *)
Lemma parse_digits_digits (n : Z) : 0 <= n -> parse_digits 0 (digits n) = n.
Proof.
  revert n. apply decimal_ind.
  - intros n H. rewrite digits_small by exact H. simpl.
    rewrite isdigit_digit_char, digit_val_digit_char by exact H. lia.
  - intros n H IH.
    assert (Hm : 0 <= n mod 10 < 10) by (apply Z.mod_pos_bound; lia).
    rewrite digits_step, parse_digits_snoc, IH; trivial.
    + pose proof (Z.div_mod n 10). lia.
    + apply all_digits_digits. apply Z.div_pos; lia.
Qed.

(** Digits written after a positive value: the value read back is positive
    and its digits are the two digit strings joined. *)
Lemma digits_parse_digits (v : Z) :
  0 < v -> forall n, 0 <= n ->
  0 < parse_digits v (digits n) /\
  digits (parse_digits v (digits n)) = digits v ++ digits n.
Proof.
  intros Hv. apply decimal_ind.
  - intros n H. rewrite digits_small by exact H. simpl.
    rewrite isdigit_digit_char, digit_val_digit_char by exact H.
    split; [lia |]. now apply digits_snoc.
  - intros n H [IHp IHd].
    assert (Hm : 0 <= n mod 10 < 10) by (apply Z.mod_pos_bound; lia).
    assert (Hq : 0 <= n / 10) by (apply Z.div_pos; lia).
    rewrite digits_step, parse_digits_snoc by (trivial; now apply all_digits_digits).
    split; [lia |].
    rewrite digits_snoc, IHd by trivial. apply append_assoc.
Qed.

Lemma isdigit_not_space (c : ascii) : isdigit c = true -> isspace c = false.
Proof.
  unfold isdigit, isspace. intros H.
  apply andb_true_iff in H as [H1 H2]. apply Z.leb_le in H1.
  destruct (Z.eqb_spec (Z.of_nat (nat_of_ascii c)) 32); [lia |]. simpl.
  destruct (Z.leb_spec 9 (Z.of_nat (nat_of_ascii c))); [| reflexivity].
  destruct (Z.leb_spec (Z.of_nat (nat_of_ascii c)) 13); [lia | reflexivity].
Qed.

Lemma parse_digits_nonneg (s : string) : forall a, 0 <= a -> 0 <= parse_digits a s.
Proof.
  induction s as [| c s IH]; intros a Ha; simpl; [exact Ha |].
  destruct (isdigit c) eqn:D; [| exact Ha].
  apply IH. unfold isdigit in D. apply andb_true_iff in D as [D _].
  apply Z.leb_le in D. unfold digit_val. lia.
Qed.

(** On a string that starts with a digit, the integer read is the digit
    run. *)
Lemma integer_value_digit (c : ascii) (r : string) :
  isdigit c = true -> integer_value (String c r) = parse_digits 0 (String c r).
Proof.
  intros H. unfold integer_value. cbn [skip_spaces]. rewrite (isdigit_not_space c H).
  destruct c as [[] [] [] [] [] [] [] []]; try discriminate H; reflexivity.
Qed.

Lemma long_to_int_small (z : Z) : - 2 ^ 31 <= z < 2 ^ 31 -> long_to_int z = z.
Proof.
  unfold long_to_int. change (2 ^ 31) with 2147483648. change (2 ^ 32) with 4294967296.
  intros H. rewrite Z.mod_small; lia.
Qed.

(** [atoi] on a run of digits whose value fits an [int]. *)
Lemma atoi_digit_run (c : ascii) (r : string) :
  isdigit c = true -> parse_digits 0 (String c r) < 2 ^ 31 ->
  atoi (String c r) = parse_digits 0 (String c r).
Proof.
  intros D B. unfold atoi, strtoll. rewrite integer_value_digit by exact D.
  pose proof (parse_digits_nonneg (String c r) 0 ltac:(lia)) as P.
  change (2 ^ 31) with 2147483648 in B.
  rewrite Z.min_r, Z.max_r by (unfold LLONG_MIN, LLONG_MAX; lia).
  apply long_to_int_small. change (2 ^ 31) with 2147483648. lia.
Qed.

Lemma concat_router_ids_parse (v id : Z) :
  0 <= v -> 0 <= id -> parse_digits v (digits id) <= LLONG_MAX ->
  concat_router_ids v id = parse_digits v (digits id).
Proof.
  intros Hv Hid Hb. unfold concat_router_ids, atoll, strtoll.
  rewrite !dec_nonneg by trivial.
  destruct (digits_head v Hv) as (c & r & E & D).
  pose proof (all_digits_digits v Hv) as A.
  rewrite E in *. cbn [append]. rewrite integer_value_digit by exact D.
  change (String c (r ++ digits id)) with (String c r ++ digits id).
  rewrite parse_digits_app by exact A.
  rewrite <- E, parse_digits_digits by exact Hv.
  pose proof (parse_digits_nonneg (digits id) v Hv) as P.
  rewrite Z.min_r, Z.max_r by (unfold LLONG_MIN, LLONG_MAX in *; lia).
  reflexivity.
Qed.

(** [concat_router_ids(0, id)] is [id]: the leading zero is read away. *)
Lemma concat_router_ids_zero (id : Z) :
  0 <= id <= LLONG_MAX -> concat_router_ids 0 id = id.
Proof.
  intros H. rewrite concat_router_ids_parse; rewrite ?parse_digits_digits; lia.
Qed.

Lemma parse_digits_digit (v id : Z) :
  0 <= id < 10 -> parse_digits v (digits id) = v * 10 + id.
Proof.
  intros Hid. rewrite digits_small by lia. simpl.
  now rewrite isdigit_digit_char, digit_val_digit_char.
Qed.

(** With a one-digit id the result is [10 * v + id]. *)
Lemma concat_router_ids_digit (v id : Z) :
  0 <= v -> 0 <= id < 10 -> v * 10 + id <= LLONG_MAX ->
  concat_router_ids v id = v * 10 + id.
Proof.
  intros Hv Hid Hb.
  rewrite concat_router_ids_parse; rewrite ?parse_digits_digit; lia.
Qed.

(** On a positive value [concat_router_ids] joins the decimal strings, as
    long as the number they spell fits a [long long]. *)
Lemma dec_concat_router_ids (v id : Z) :
  0 < v -> 0 <= id -> parse_digits v (digits id) <= LLONG_MAX ->
  0 < concat_router_ids v id /\ dec (concat_router_ids v id) = dec v ++ dec id.
Proof.
  intros Hv Hid Hb. rewrite concat_router_ids_parse by lia.
  destruct (digits_parse_digits v Hv id Hid) as [P D].
  split; [exact P |]. rewrite !dec_nonneg by lia. exact D.
Qed.

(** Appending a router id to a path of [k + 1] ids, [k] at most
    [NUM_ROUTERS]: the result has one digit more, stays far below
    [LLONG_MAX], and is written as the old digits followed by the id. *)
Lemma append_router_id (v id k : Z) :
  0 <= k <= NUM_ROUTERS -> 0 < v < 10 ^ (k + 1) -> 1 <= id <= NUM_ROUTERS ->
  0 < concat_router_ids v id < 10 ^ (k + 2) /\
  10 ^ (k + 2) <= 10 ^ 6 /\
  dec (concat_router_ids v id) = dec v ++ dec id.
Proof.
  intros Hk Hv Hid. unfold NUM_ROUTERS in *.
  assert (Top : 10 ^ (k + 2) <= 10 ^ 6) by (apply Z.pow_le_mono_r; lia).
  assert (Up : 10 ^ (k + 2) = 10 * 10 ^ (k + 1)).
  { replace (k + 2) with (Z.succ (k + 1)) by lia. apply Z.pow_succ_r. lia. }
  change (10 ^ 6) with 1000000 in Top.
  assert (Hb : parse_digits v (digits id) <= LLONG_MAX)
    by (rewrite parse_digits_digit by lia; unfold LLONG_MAX; lia).
  destruct (dec_concat_router_ids v id ltac:(lia) ltac:(lia) Hb) as [_ D].
  rewrite concat_router_ids_digit in * by (unfold LLONG_MAX; lia).
  change (10 ^ 6) with 1000000. repeat split; trivial; lia.
Qed.

End Decimal.

(** ** Arrays and the connection matrix *)

Lemma array_get_range {A : Type} (name : string) (a : list A) (i : Z) (x : A) :
  array_get name a i = Ok x -> 0 <= i < Z.of_nat (List.length a).
Proof.
  unfold array_get. destruct (Z.ltb_spec i 0); [discriminate |].
  destruct (nth_error a (Z.to_nat i)) eqn:E; [| discriminate].
  intros _. assert (Z.to_nat i < List.length a)%nat; [| lia].
  apply nth_error_Some. congruence.
Qed.

Lemma index_cases (i : Z) : 0 <= i < 4 -> i = 0 \/ i = 1 \/ i = 2 \/ i = 3.
Proof. lia. Qed.

Lemma matrix_read_range (i j c : Z) :
  matrix_read i j = Ok c -> 0 <= i < NUM_ROUTERS /\ 0 <= j < NUM_ROUTERS.
Proof.
  unfold matrix_read, bind.
  destruct (array_get "connection_matrix" connection_matrix i) as [row | | |] eqn:E;
    try discriminate.
  intros Hj. pose proof (array_get_range _ _ _ _ E) as Hi.
  change (Z.of_nat (List.length connection_matrix)) with 4 in Hi.
  split; [exact Hi |].
  apply array_get_range in Hj.
  destruct (index_cases i Hi) as [-> | [-> | [-> | ->]]];
    injection E as <-; exact Hj.
Qed.

Lemma adjacent_read (a b : Z) :
  adjacent a b = true <-> matrix_read (a - 1) (b - 1) = Ok 1.
Proof.
  unfold adjacent. destruct (matrix_read (a - 1) (b - 1)) as [c | | |]; split;
    try discriminate.
  - intros H. apply Z.eqb_eq in H. now subst.
  - intros H. injection H as ->. reflexivity.
Qed.

Lemma adjacent_range (a b : Z) :
  adjacent a b = true -> 1 <= a <= NUM_ROUTERS /\ 1 <= b <= NUM_ROUTERS.
Proof.
  intros H. apply adjacent_read in H. apply matrix_read_range in H.
  unfold NUM_ROUTERS in *. lia.
Qed.

(** ** One pass through the manual loop *)

Lemma list_set_length {A : Type} (a : list A) : forall i x,
  List.length (list_set a i x) = List.length a.
Proof.
  induction a as [| y a IH]; intros [| i] x; simpl; auto.
Qed.

(** The three ways a pass can end without undefined behaviour: nothing
    changed; the destination was appended and the loop left by [break]; an
    intermediate hop was taken. *)
Lemma manual_step_cases (dest_router : Z) (st st' : manual_state)
    (scanned : option Z) (fl : flow) :
  manual_step dest_router st scanned = Ok (fl, st') ->
  (fl = LoopTest /\ st' = st /\ rejected dest_router st scanned = true) \/
  (fl = Break /\ st' = append_id st dest_router /\
   adjacent (current_router st) dest_router = true) \/
  (fl = LoopTest /\ exists next_router,
     scanned = Some next_router /\
     1 <= next_router <= NUM_ROUTERS /\ next_router <> dest_router /\
     adjacent (current_router st) next_router = true /\
     hop_taken st st' next_router).
Proof.
  unfold manual_step, rejected, adjacent.
  set (next_router := match scanned with Some n => n | None => -1 end).
  destruct (Z.eqb_spec next_router 0) as [E0 | N0].
  - destruct (matrix_read (current_router st - 1) (dest_router - 1)) as [c | | |];
      try discriminate. cbn [bind].
    destruct (c =? 1); intros H; injection H as <- <-; auto.
  - destruct ((next_router <? 1) || (next_router >? NUM_ROUTERS)) eqn:R.
    + intros H; injection H as <- <-; auto.
    + apply orb_false_iff in R as [R1 R2].
      apply Z.ltb_ge in R1. rewrite Z.gtb_ltb in R2. apply Z.ltb_ge in R2.
      destruct (Z.eqb_spec next_router dest_router) as [Ed | Nd].
      * destruct (matrix_read (current_router st - 1) (dest_router - 1)) as [c | | |];
          try discriminate. cbn [bind].
        destruct (c =? 1); intros H; injection H as <- <-; auto.
      * destruct (matrix_read (current_router st - 1) (next_router - 1)) as [c | | |] eqn:M;
          try discriminate. cbn [bind].
        destruct (c =? 1) eqn:C1; [| intros H; injection H as <- <-; auto].
        unfold array_set.
        destruct ((0 <=? router_index st)
                  && (router_index st <? Z.of_nat (List.length (intermediate_routers st))))
          eqn:B; [| discriminate].
        cbn [bind]. intros H; injection H as <- <-.
        right; right. split; [reflexivity |]. exists next_router.
        apply andb_true_iff in B as [B1 B2].
        apply Z.leb_le in B1. apply Z.ltb_lt in B2.
        rewrite M, C1.
        repeat split; simpl; trivial; try lia.
        subst next_router. destruct scanned; [reflexivity | lia].
Qed.

(** ** Paths built by the manual loop *)

Lemma chain_adjacent_snoc (front : list Z) (a b : Z) :
  chain_adjacent (front ++ [a]) = true -> adjacent a b = true ->
  chain_adjacent ((front ++ [a]) ++ [b]) = true.
Proof.
  intros H Hab. induction front as [| x front IH]; simpl in *.
  - now rewrite Hab.
  - destruct front as [| y front]; simpl in *.
    + apply andb_true_iff in H as [-> _]. now rewrite Hab.
    + apply andb_true_iff in H as [-> H]. simpl. now apply IH.
Qed.

Lemma concat_dec_snoc (p : list Z) (id : Z) :
  concat_dec (p ++ [id]) = concat_dec p ++ dec id.
Proof.
  induction p as [| x p IH]; simpl.
  - apply append_nil_r.
  - now rewrite IH, append_assoc.
Qed.

Lemma manual_init_inv (source_router : Z) :
  1 <= source_router <= NUM_ROUTERS -> manual_inv source_router (manual_init source_router).
Proof.
  intros H. unfold NUM_ROUTERS in H.
  split; simpl; rewrite ?concat_router_ids_zero by (unfold LLONG_MAX; lia).
  - now exists [].
  - now exists [].
  - reflexivity.
  - constructor; [unfold NUM_ROUTERS; lia | constructor].
  - now rewrite append_nil_r.
  - reflexivity.
  - unfold NUM_ROUTERS. lia.
  - lia.
Qed.

Lemma hop_taken_inv (source_router : Z) (st st' : manual_state) (next_router : Z) :
  manual_inv source_router st -> adjacent (current_router st) next_router = true ->
  hop_taken st st' next_router -> manual_inv source_router st'.
Proof.
  intros [[rest F] [front L] C R E B I P] A (Hc & Hp & Hi & Hx & Hb & Hbuf).
  pose proof (adjacent_range _ _ A) as [_ Hn].
  destruct (append_router_id (route_path st) next_router (router_index st) I P Hn)
    as (P' & _ & D).
  rewrite B in Hb. unfold NUM_ROUTERS in Hb, I. simpl Z.of_nat in Hb.
  split; rewrite ?Hc, ?Hp, ?Hi, ?Hx, ?Hbuf.
  - rewrite F. now exists (rest ++ [next_router])%list.
  - now exists (path_ids st).
  - rewrite L. apply chain_adjacent_snoc; [now rewrite <- L | exact A].
  - apply Forall_app. split; [exact R | now constructor].
  - now rewrite concat_dec_snoc, <- E.
  - now rewrite list_set_length.
  - unfold NUM_ROUTERS. lia.
  - now replace (router_index st + 1 + 1) with (router_index st + 2) by lia.
Qed.

Lemma append_dest_complete (source_router dest_router : Z) (st : manual_state) :
  manual_inv source_router st -> adjacent (current_router st) dest_router = true ->
  complete_path source_router dest_router (path_ids (append_id st dest_router)) /\
  dec (route_path (append_id st dest_router))
  = concat_dec (path_ids (append_id st dest_router)) /\
  0 < route_path (append_id st dest_router) < 10 ^ 6.
Proof.
  intros [[rest F] [front L] C R E B I P] A.
  pose proof (adjacent_range _ _ A) as [_ Hn].
  destruct (append_router_id (route_path st) dest_router (router_index st) I P Hn)
    as (P' & Top & D).
  split; [split | split]; simpl.
  - rewrite F. now exists (rest ++ [dest_router])%list.
  - now exists (path_ids st).
  - rewrite L. apply chain_adjacent_snoc; [now rewrite <- L | exact A].
  - apply Forall_app. split; [exact R | now constructor].
  - now rewrite concat_dec_snoc, <- E.
  - lia.
Qed.

(** Whenever the manual loop ends, the ids it appended form a complete
    path, [route_path] is their decimal concatenation, and it is below
    [10 ^ 6]: every [atoll] on the way read its digits without reaching the
    bound of [long long], and every [sprintf] stayed within its 32
    characters. *)
Lemma manual_loop_complete (source_router dest_router : Z) (inp : list (option Z)) :
  forall st st' rest,
  manual_inv source_router st ->
  manual_loop dest_router st inp = Ok (st', rest) ->
  complete_path source_router dest_router (path_ids st') /\
  dec (route_path st') = concat_dec (path_ids st') /\
  0 < route_path st' < 10 ^ 6.
Proof.
  induction inp as [| scanned inp IH]; intros st st' rest I; simpl; [discriminate |].
  destruct (manual_step dest_router st scanned) as [[fl st1] | | |] eqn:Hstep;
    try discriminate.
  cbn [bind]. intros H.
  assert (T : forall st2, manual_inv source_router st2 ->
              (if negb (current_router st2 =? dest_router)
               then manual_loop dest_router st2 inp else Ok (st2, inp)) = Ok (st', rest) ->
              complete_path source_router dest_router (path_ids st') /\
              dec (route_path st') = concat_dec (path_ids st') /\
              0 < route_path st' < 10 ^ 6).
  { intros st2 I2 H2.
    destruct (Z.eqb_spec (current_router st2) dest_router) as [Ed | Nd]; simpl in H2.
    - injection H2 as <- <-. destruct I2 as [F L C R E B X P].
      split; [split | split]; trivial; [now rewrite <- Ed |].
      assert (10 ^ (router_index st2 + 1) <= 10 ^ 6)
        by (apply Z.pow_le_mono_r; unfold NUM_ROUTERS in X; lia).
      lia.
    - now apply (IH st2 st' rest). }
  destruct (manual_step_cases _ _ _ _ _ Hstep)
    as [(-> & -> & _) | [(-> & -> & A) | (-> & next_router & _ & _ & _ & A & Hop)]].
  - now apply (T st).
  - injection H as <- <-. now apply append_dest_complete.
  - apply (T st1); [| exact H]. now apply (hop_taken_inv source_router st st1 next_router).
Qed.

Lemma firstn_list_set {A : Type} (a : list A) : forall k x,
  (k < List.length a)%nat -> firstn (S k) (list_set a k x) = (firstn k a ++ [x])%list.
Proof.
  induction a as [| y a IH]; intros [| k] x H; simpl in *; try lia.
  - reflexivity.
  - f_equal. apply IH. lia.
Qed.

(** With distinct source and destination routers the ids appended to
    [route_path] are the ones the program prints as the path: the source,
    the stored intermediate routers, the destination. *)
Lemma manual_loop_displayed (source_router dest_router : Z) (inp : list (option Z)) :
  forall st st' rest,
  current_router st <> dest_router ->
  path_ids st
  = source_router :: firstn (Z.to_nat (router_index st)) (intermediate_routers st) ->
  0 <= router_index st ->
  manual_loop dest_router st inp = Ok (st', rest) ->
  path_ids st' = displayed_path source_router dest_router st'.
Proof.
  induction inp as [| scanned inp IH]; intros st st' rest Nc Hp Hi; simpl; [discriminate |].
  destruct (manual_step dest_router st scanned) as [[fl st1] | | |] eqn:Hstep;
    try discriminate.
  cbn [bind].
  destruct (manual_step_cases _ _ _ _ _ Hstep)
    as [(-> & -> & _) | [(-> & -> & A) | (-> & next_router & _ & _ & Nd & A & Hop)]].
  - apply Z.eqb_neq in Nc as Nc'. rewrite Nc'. cbn [negb]. now apply IH.
  - intros H. injection H as <- <-. unfold displayed_path. simpl. now rewrite Hp.
  - destruct Hop as (Hc & _ & Hids & Hidx & Hb & Hbuf).
    assert (Nc1 : current_router st1 <> dest_router) by congruence.
    apply Z.eqb_neq in Nc1 as Nc1'. rewrite Nc1'. cbn [negb].
    apply IH; [exact Nc1 | | lia].
    rewrite Hids, Hidx, Hbuf, Hp.
    replace (Z.to_nat (router_index st + 1)) with (S (Z.to_nat (router_index st))) by lia.
    rewrite firstn_list_set by lia. reflexivity.
Qed.

Lemma manual_route_displayed (source_router dest_router : Z) (inp : list (option Z))
    (st : manual_state) (rest : list (option Z)) :
  source_router <> dest_router ->
  manual_loop dest_router (manual_init source_router) inp = Ok (st, rest) ->
  path_ids st = displayed_path source_router dest_router st.
Proof.
  intros N. apply manual_loop_displayed; [exact N | reflexivity | simpl; lia].
Qed.

(** The encoded path of every resolution fits a [long long] with room to
    spare. *)
Lemma resolve_encoded_bounded (source_router dest_router : Z) (inp : list (option Z))
    (r : route) (rest : list (option Z)) :
  resolve source_router dest_router inp = Ok (r, rest) -> 0 < encoded r < 10 ^ 6.
Proof.
  unfold resolve.
  destruct (matrix_read (source_router - 1) (dest_router - 1)) as [c | | |] eqn:M;
    try discriminate.
  apply matrix_read_range in M as [Hs Hd]. unfold NUM_ROUTERS in Hs, Hd.
  cbn [bind].
  assert (Man : forall inp', manual_route source_router dest_router inp' = Ok (r, rest) ->
                0 < encoded r < 10 ^ 6).
  { intros inp'. unfold manual_route.
    destruct (manual_loop dest_router (manual_init source_router) inp')
      as [[st rest'] | | |] eqn:L; try discriminate.
    cbn [bind]. intros H. injection H as <- <-. simpl.
    eapply manual_loop_complete; [| exact L].
    apply manual_init_inv. unfold NUM_ROUTERS. lia. }
  destruct (c =? 1); [| apply Man].
  destruct inp as [| [choice |] inp']; try discriminate.
  destruct (choice =? 1); [| apply Man].
  intros H. injection H as <- <-. simpl.
  rewrite concat_router_ids_zero, concat_router_ids_digit by (unfold LLONG_MAX; lia).
  change (10 ^ 6) with 1000000. lia.
Qed.

(** C1. Every path that manual hop assembly ends with is a sequence of
    router ids that starts with the source router, ends with the destination
    router and has [connection_matrix] entry 1 between every two consecutive
    routers, and the integer built for it spells these ids in order; this
    for every sequence of inputs on which the assembly ends. *)
Theorem manual_path_valid (source_router dest_router : Z) (inp : list (option Z))
    (r : route) (rest : list (option Z)) :
  1 <= source_router <= NUM_ROUTERS ->
  manual_route source_router dest_router inp = Ok (r, rest) ->
  (exists tl, ids r = source_router :: tl) /\
  (exists front, ids r = (front ++ [dest_router])%list) /\
  chain_adjacent (ids r) = true /\
  Forall (fun id => 1 <= id <= NUM_ROUTERS) (ids r) /\
  dec (encoded r) = concat_dec (ids r).
Proof.
  intros Hs. unfold manual_route.
  destruct (manual_loop dest_router (manual_init source_router) inp)
    as [[st rest'] | | |] eqn:L; try discriminate.
  cbn [bind]. intros H. injection H as <- <-. simpl.
  destruct (manual_loop_complete source_router dest_router inp _ _ _
              (manual_init_inv source_router Hs) L) as ([F La C R] & E & _).
  auto.
Qed.

Lemma manual_path_valid_witness :
  1 <= 1 <= NUM_ROUTERS /\
  manual_route 1 3 [Some 2; Some 7; Some 0] = Ok ({| encoded := 123; ids := [1; 2; 3] |}, []) /\
  (exists tl, [1; 2; 3] = 1 :: tl) /\
  (exists front, [1; 2; 3] = (front ++ [3])%list) /\
  chain_adjacent [1; 2; 3] = true /\
  Forall (fun id => 1 <= id <= NUM_ROUTERS) [1; 2; 3] /\
  dec 123 = concat_dec [1; 2; 3].
Proof.
  split; [unfold NUM_ROUTERS; lia |]. split; [reflexivity |].
  apply (manual_path_valid 1 3 [Some 2; Some 7; Some 0]
           {| encoded := 123; ids := [1; 2; 3] |} []).
  - unfold NUM_ROUTERS. lia.
  - reflexivity.
Defined.

(** The direct route: matrix entry 1 and answer 1 to the offer. *)
Lemma resolve_direct (source_router dest_router : Z) (rest : list (option Z)) :
  adjacent source_router dest_router = true ->
  resolve source_router dest_router (Some 1 :: rest)
  = Ok ({| encoded := source_router * 10 + dest_router;
           ids := [source_router; dest_router] |}, rest).
Proof.
  intros A. pose proof (adjacent_range _ _ A) as [Hs Hd].
  unfold NUM_ROUTERS in *.
  apply adjacent_read in A. unfold resolve. rewrite A. cbn [bind Z.eqb Pos.eqb].
  rewrite concat_router_ids_zero, concat_router_ids_digit by (unfold LLONG_MAX; lia).
  reflexivity.
Qed.

(** C3. When the source and destination routers are adjacent and the
    answer to the direct-path offer is 1, resolution ends at once with the
    path [source, dest], of length 2, encoded as the two ids side by side,
    and asks for no hop: what is left on the console is left unread. *)
Theorem direct_shortcut (source_router dest_router : Z) (rest : list (option Z)) :
  adjacent source_router dest_router = true ->
  exists r,
    resolve source_router dest_router (Some 1 :: rest) = Ok (r, rest) /\
    ids r = [source_router; dest_router] /\
    List.length (ids r) = 2%nat /\
    encoded r = source_router * 10 + dest_router.
Proof.
  intros A. eexists. split; [now apply resolve_direct |]. repeat split.
Qed.

Lemma direct_shortcut_witness :
  adjacent 1 4 = true /\
  exists r,
    resolve 1 4 [Some 1; Some 3] = Ok (r, [Some 3]) /\
    ids r = [1; 4] /\ List.length (ids r) = 2%nat /\ encoded r = 1 * 10 + 4.
Proof.
  split; [reflexivity |]. apply (direct_shortcut 1 4 [Some 3]). reflexivity.
Defined.

(** The encoded path of every resolution is written as the decimal
    representations of its ids, one after the other. *)
Lemma resolve_encoding (source_router dest_router : Z) (inp : list (option Z))
    (r : route) (rest : list (option Z)) :
  resolve source_router dest_router inp = Ok (r, rest) ->
  dec (encoded r) = concat_dec (ids r).
Proof.
  unfold resolve.
  destruct (matrix_read (source_router - 1) (dest_router - 1)) as [c | | |] eqn:M;
    try discriminate.
  apply matrix_read_range in M as [Hs Hd]. unfold NUM_ROUTERS in Hs, Hd.
  cbn [bind].
  assert (Man : forall inp', manual_route source_router dest_router inp' = Ok (r, rest) ->
                dec (encoded r) = concat_dec (ids r)).
  { intros inp'. unfold manual_route.
    destruct (manual_loop dest_router (manual_init source_router) inp')
      as [[st rest'] | | |] eqn:L; try discriminate.
    cbn [bind]. intros H. injection H as <- <-. simpl.
    eapply manual_loop_complete; [| exact L].
    apply manual_init_inv. unfold NUM_ROUTERS. lia. }
  destruct (c =? 1); [| apply Man].
  destruct inp as [| [choice |] inp']; try discriminate.
  destruct (choice =? 1); [| apply Man].
  intros H. injection H as <- <-. simpl.
  rewrite concat_router_ids_zero, append_nil_r by (unfold LLONG_MAX; lia).
  apply dec_concat_router_ids; try lia.
  rewrite parse_digits_digit by lia. unfold LLONG_MAX. lia.
Qed.

(** C6. For every router-id sequence that resolution produces, direct or
    manual, the integer built for it and stored in the history is the
    number whose decimal digit string is the decimal representations of the
    ids written one after the other, in order. *)
Theorem route_encoding (h : history) (source_ip destination_ip : string)
    (source_router dest_router : Z) (inp : list (option Z))
    (r : route) (h' : history) (rest : list (option Z)) :
  serve_query h source_ip destination_ip source_router dest_router inp
  = Ok (NewRouteLogged r, h', rest) ->
  dec (encoded r) = concat_dec (ids r) /\
  h' = (h ++ [(route_key source_ip destination_ip, encoded r)])%list.
Proof.
  unfold serve_query.
  destruct (negb (history_scan (route_key source_ip destination_ip) h 0 =? -1)).
  - destruct (array_get _ _ _) as [e | | |]; discriminate.
  - destruct (resolve source_router dest_router inp) as [[r' rest'] | | |] eqn:R;
      try discriminate.
    cbn [bind]. unfold save_history.
    destruct (history_count h <? MAX_ROUTE_HISTORY); [| discriminate].
    intros H. injection H as -> <- _.
    split; [now apply resolve_encoding in R | reflexivity].
Qed.

Lemma route_encoding_witness :
  serve_query [("10.0.1.1*10.0.3.1", 123)] "10.0.1.1" "10.0.4.1" 1 4
    [Some 0; Some 2; Some 3; Some 4]
  = Ok (NewRouteLogged {| encoded := 1234; ids := [1; 2; 3; 4] |},
        [("10.0.1.1*10.0.3.1", 123); ("10.0.1.1*10.0.4.1", 1234)], []) /\
  dec 1234 = concat_dec [1; 2; 3; 4] /\
  [("10.0.1.1*10.0.3.1", 123); ("10.0.1.1*10.0.4.1", 1234)]
  = ([("10.0.1.1*10.0.3.1", 123)] ++ [(route_key "10.0.1.1" "10.0.4.1", 1234)])%list.
Proof.
  split; [reflexivity |].
  apply (route_encoding [("10.0.1.1*10.0.3.1", 123)] "10.0.1.1" "10.0.4.1" 1 4
           [Some 0; Some 2; Some 3; Some 4]
           {| encoded := 1234; ids := [1; 2; 3; 4] |}
           [("10.0.1.1*10.0.3.1", 123); ("10.0.1.1*10.0.4.1", 1234)] []).
  reflexivity.
Defined.

(** ** Rejected hop proposals *)

Lemma matrix_read_total (i j : Z) :
  0 <= i < NUM_ROUTERS -> 0 <= j < NUM_ROUTERS -> exists c, matrix_read i j = Ok c.
Proof.
  intros Hi Hj.
  destruct (index_cases i Hi) as [-> | [-> | [-> | ->]]];
    destruct (index_cases j Hj) as [-> | [-> | [-> | ->]]];
    eexists; reflexivity.
Qed.

(** A rejected proposal changes nothing and leads to the loop test. *)
Lemma rejected_keeps_state (dest_router : Z) (st : manual_state) (scanned : option Z) :
  1 <= current_router st <= NUM_ROUTERS -> 1 <= dest_router <= NUM_ROUTERS ->
  rejected dest_router st scanned = true ->
  manual_step dest_router st scanned = Ok (LoopTest, st).
Proof.
  intros Hc Hd. unfold rejected, manual_step, adjacent.
  set (next_router := match scanned with Some n => n | None => -1 end).
  destruct (matrix_read_total (current_router st - 1) (dest_router - 1)) as [c Ec];
    [lia | lia |].
  destruct (next_router =? 0).
  - rewrite Ec. cbn [bind]. now destruct (c =? 1).
  - destruct ((next_router <? 1) || (next_router >? NUM_ROUTERS)) eqn:R; [reflexivity |].
    apply orb_false_iff in R as [R1 R2].
    apply Z.ltb_ge in R1. rewrite Z.gtb_ltb in R2. apply Z.ltb_ge in R2.
    destruct (next_router =? dest_router).
    + rewrite Ec. cbn [bind]. now destruct (c =? 1).
    + destruct (matrix_read_total (current_router st - 1) (next_router - 1)) as [c' Ec'];
        [lia | lia |].
      rewrite Ec'. cbn [bind]. now destruct (c' =? 1).
Qed.

(** Away from the destination the loop then prompts again... *)
Lemma rejected_prompts_again (dest_router : Z) (st : manual_state)
    (scanned : option Z) (rest : list (option Z)) :
  1 <= current_router st <= NUM_ROUTERS -> 1 <= dest_router <= NUM_ROUTERS ->
  rejected dest_router st scanned = true ->
  current_router st <> dest_router ->
  manual_loop dest_router st (scanned :: rest) = manual_loop dest_router st rest.
Proof.
  intros Hc Hd R N. cbn [manual_loop].
  rewrite (rejected_keeps_state _ _ _ Hc Hd R). cbn [bind].
  apply Z.eqb_neq in N. now rewrite N.
Qed.

(** ... but when the current router is the destination, which is the case
    on entry when source and destination router coincide, the loop test
    fails and the loop ends with the path as it stands. *)
Lemma rejected_at_destination_ends (dest_router : Z) (st : manual_state)
    (scanned : option Z) (rest : list (option Z)) :
  1 <= dest_router <= NUM_ROUTERS ->
  rejected dest_router st scanned = true ->
  current_router st = dest_router ->
  manual_loop dest_router st (scanned :: rest) = Ok (st, rest).
Proof.
  intros Hd R E. cbn [manual_loop].
  assert (Hc : 1 <= current_router st <= NUM_ROUTERS) by now rewrite E.
  rewrite (rejected_keeps_state _ _ _ Hc Hd R). cbn [bind].
  apply Z.eqb_eq in E. now rewrite E.
Qed.

(** C7. Source and destination address both on router 1: the offer of the
    direct path is declined, then router id 9 is proposed.  The proposal is
    rejected and the path is left as it was, but the loop does not prompt
    again: resolution ends there with the path [1], which is logged. *)
Theorem rejection_ends_loop_when_source_is_destination :
  rejected 1 (manual_init 1) (Some 9) = true /\
  (forall rest, resolve 1 1 (Some 0 :: Some 9 :: rest)
                = Ok ({| encoded := 1; ids := [1] |}, rest)) /\
  run_routing_simulation 1
    {| words := ["10.0.0.1"; "10.0.0.1"; "10.0.0.1"];
       ints := [Some 1; Some 0; Some 0; Some 0; Some 0; Some 9; Some 1] |}
  = Ok ([NewRouteLogged {| encoded := 1; ids := [1] |}],
        [("10.0.0.1*10.0.0.1", 1)],
        {| words := []; ints := [] |}).
Proof.
  split; [reflexivity |]. split; [intros rest |]; reflexivity.
Qed.

(** C10. Source router 1, destination router 3 (not adjacent), hops
    2, 1, 2, 1, 2: each is adjacent to the one before, so each is stored,
    and the fifth is stored at index 4 of [intermediate_routers], which has
    [NUM_ROUTERS] = 4 elements. *)
Theorem fifth_hop_overflows_buffer :
  (forall rest,
     resolve 1 3 (Some 2 :: Some 1 :: Some 2 :: Some 1 :: Some 2 :: rest)
     = Undefined (OutOfBounds "intermediate_routers" NUM_ROUTERS)) /\
  run_routing_simulation 1
    {| words := ["10.0.1.1"; "10.0.3.1"; "10.0.1.1"; "10.0.3.1"];
       ints := [Some 1; Some 0; Some 1; Some 0;
                Some 2; Some 1; Some 2; Some 1; Some 2; Some 0; Some 1] |}
  = Undefined (OutOfBounds "intermediate_routers" NUM_ROUTERS).
Proof. split; [intros rest |]; reflexivity. Qed.

(** ** The diagonal of the connection matrix *)

(** C9, as stated, fails: with source and destination on router 2 the direct
    path is offered because [connection_matrix[1][1]] is 1 and, accepted,
    gives the path [2, 2]; from router 1 towards router 3 the proposal of
    router 1 itself is taken as a hop because [connection_matrix[0][0]] is 1. *)
Lemma diagonal_entry_links_router_to_itself :
  resolve 2 2 [Some 1] = Ok ({| encoded := 22; ids := [2; 2] |}, []) /\
  uses_self_link [2; 2] = true /\
  resolve 1 3 [Some 1; Some 2; Some 0] = Ok ({| encoded := 1123; ids := [1; 1; 2; 3] |}, []) /\
  uses_self_link [1; 1; 2; 3] = true.
Proof. repeat split. Qed.

(** C9, amended.  Path resolution reads the diagonal of the matrix like any
    other entry, and the diagonal is 1: for every router [i], with source and
    destination both [i] the direct path is offered and, accepted, is
    [i, i]; a finalize request at [i] with destination [i] is honoured; and
    in manual assembly the proposal of the current router [i] itself, when
    it is not the destination, is taken as an intermediate hop. *)
Theorem diagonal_read_like_any_entry (i : Z) :
  1 <= i <= NUM_ROUTERS ->
  adjacent i i = true /\
  (forall rest,
     resolve i i (Some 1 :: rest) = Ok ({| encoded := i * 10 + i; ids := [i; i] |}, rest)) /\
  (forall st, current_router st = i ->
     manual_step i st (Some 0) = Ok (Break, append_id st i)) /\
  (forall dest_router st,
     current_router st = i -> dest_router <> i ->
     0 <= router_index st < Z.of_nat (List.length (intermediate_routers st)) ->
     exists st', manual_step dest_router st (Some i) = Ok (LoopTest, st') /\
                 hop_taken st st' i).
Proof.
  intros Hi.
  assert (A : adjacent i i = true).
  { unfold NUM_ROUTERS in Hi.
    assert (C : i = 1 \/ i = 2 \/ i = 3 \/ i = 4) by lia.
    destruct C as [-> | [-> | [-> | ->]]]; reflexivity. }
  split; [exact A |]. split; [| split].
  - intros rest. now apply resolve_direct.
  - intros st E. unfold manual_step. cbn [Z.eqb]. rewrite E.
    apply adjacent_read in A. now rewrite A.
  - intros dest_router st E N B. unfold manual_step.
    assert (Z0 : (i =? 0) = false) by (apply Z.eqb_neq; lia).
    assert (Zr : ((i <? 1) || (i >? NUM_ROUTERS)) = false).
    { apply orb_false_iff. split; [apply Z.ltb_ge; lia |].
      rewrite Z.gtb_ltb. apply Z.ltb_ge. lia. }
    assert (Zd : (i =? dest_router) = false) by (apply Z.eqb_neq; congruence).
    rewrite Z0, Zr, Zd, E. apply adjacent_read in A. rewrite A. cbn [bind Z.eqb Pos.eqb].
    unfold array_set.
    assert (Zb : ((0 <=? router_index st)
                  && (router_index st <? Z.of_nat (List.length (intermediate_routers st))))
                 = true).
    { apply andb_true_iff. split; [apply Z.leb_le | apply Z.ltb_lt]; lia. }
    rewrite Zb. cbn [bind]. eexists. split; [reflexivity |].
    unfold hop_taken. simpl. repeat split; trivial; lia.
Qed.

Lemma diagonal_read_like_any_entry_witness :
  1 <= 3 <= NUM_ROUTERS /\
  adjacent 3 3 = true /\
  (forall rest,
     resolve 3 3 (Some 1 :: rest) = Ok ({| encoded := 3 * 10 + 3; ids := [3; 3] |}, rest)) /\
  (forall st, current_router st = 3 ->
     manual_step 3 st (Some 0) = Ok (Break, append_id st 3)) /\
  (forall dest_router st,
     current_router st = 3 -> dest_router <> 3 ->
     0 <= router_index st < Z.of_nat (List.length (intermediate_routers st)) ->
     exists st', manual_step dest_router st (Some 3) = Ok (LoopTest, st') /\
                 hop_taken st st' 3).
Proof.
  split; [unfold NUM_ROUTERS; lia |].
  apply (diagonal_read_like_any_entry 3). unfold NUM_ROUTERS. lia.
Defined.

(** ** [validate_ip] *)

Section Validation.

Lemma skip_delims_length (s : string) : (length (skip_delims s) <= length s)%nat.
Proof.
  induction s as [| c s IH]; simpl; [lia |]. destruct (is_dot c); simpl; lia.
Qed.

Lemma span_token_length (s : string) : forall t r,
  span_token s = (t, r) ->
  (length r <= length s)%nat /\ (s <> "" -> (length r < length s)%nat).
Proof.
  induction s as [| c s IH]; intros t r; simpl.
  - intros H. injection H as <- <-. simpl. split; [lia | congruence].
  - destruct (is_dot c).
    + intros H. injection H as <- <-. split; [lia | intros _; lia].
    + destruct (span_token s) as [t' r'] eqn:E. intros H. injection H as <- <-.
      destruct (IH _ _ eq_refl) as [L _]. split; [lia | intros _; lia].
Qed.

(** The pointer [strtok] saves lies strictly further in the buffer. *)
Lemma strtok_length (s t r : string) :
  strtok s = Some (t, r) -> (length r < length s)%nat.
Proof.
  unfold strtok. pose proof (skip_delims_length s) as L.
  destruct (skip_delims s) as [| c s'] eqn:E; [discriminate |].
  intros H. injection H as H. change (span_token (String c s') = (t, r)) in H.
  destruct (span_token_length _ _ _ H) as [_ S].
  assert (N : String c s' <> "") by discriminate. specialize (S N). lia.
Qed.

(** The loop of [validate_ip] always comes to an end within the bound. *)
Lemma validate_loop_total (fuel : nat) : forall ptr dots octet_count,
  match ptr with
  | Some (_, saved) => (length saved < fuel)%nat
  | None => True
  end ->
  validate_loop fuel ptr dots octet_count <> None.
Proof.
  induction fuel as [| fuel IH]; intros [[tok saved] |] dots octet_count H;
    cbn [validate_loop].
  - lia.
  - now destruct (negb (octet_count =? 4) || negb (dots =? 3)).
  - destruct (negb (validate_number tok)); [discriminate |].
    destruct ((atoi tok <? 0) || (atoi tok >? 255)); [discriminate |].
    apply IH. destruct (strtok saved) as [[t r] |] eqn:E; [| exact I].
    apply strtok_length in E. lia.
  - now destruct (negb (octet_count =? 4) || negb (dots =? 3)).
Qed.

Lemma validate_ip_loop_total (temp_ip : string) :
  validate_loop (S (length temp_ip)) (strtok temp_ip) 0 0 <> None.
Proof.
  apply validate_loop_total.
  destruct (strtok temp_ip) as [[t r] |] eqn:E; [| exact I].
  apply strtok_length in E. lia.
Qed.

Lemma skip_delims_chars (s : string) :
  ip_chars (skip_delims s) = true -> ip_chars s = true.
Proof.
  induction s as [| c s IH]; simpl; [trivial |].
  destruct (is_dot c) eqn:D; simpl.
  - intros H. now rewrite orb_true_r, IH.
  - now rewrite D.
Qed.

Lemma span_token_chars (s : string) : forall t r,
  span_token s = (t, r) -> all_digits t = true -> ip_chars r = true ->
  ip_chars s = true.
Proof.
  induction s as [| c s IH]; intros t r; simpl; [trivial |].
  destruct (is_dot c) eqn:D.
  - intros H. injection H as <- <-. intros _ R. now rewrite orb_true_r, R.
  - destruct (span_token s) as [t' r'] eqn:E. intros H. injection H as <- <-.
    simpl. destruct (isdigit c); simpl; [| discriminate].
    intros T R. now apply (IH t' r').
Qed.

Lemma strtok_chars (s : string) :
  match strtok s with
  | Some (t, r) => all_digits t = true -> ip_chars r = true -> ip_chars s = true
  | None => ip_chars s = true
  end.
Proof.
  unfold strtok. destruct (skip_delims s) as [| c s'] eqn:E.
  - apply skip_delims_chars. now rewrite E.
  - destruct (span_token (String c s')) as [t r] eqn:P. intros T R.
    apply skip_delims_chars. rewrite E. now apply (span_token_chars _ t r).
Qed.

Lemma validate_number_digits (str : string) :
  validate_number str = true -> all_digits str = true.
Proof. destruct str; [discriminate | trivial]. Qed.

(** When the loop accepts, the current token is a digit run and what
    follows it holds digits and dots only. *)
Lemma validate_loop_chars (fuel : nat) : forall ptr dots octet_count,
  validate_loop fuel ptr dots octet_count = Some true ->
  match ptr with
  | Some (tok, saved) => all_digits tok = true /\ ip_chars saved = true
  | None => True
  end.
Proof.
  induction fuel as [| fuel IH]; intros [[tok saved] |] dots octet_count;
    cbn [validate_loop]; trivial; [discriminate |].
  destruct (validate_number tok) eqn:V; simpl; [| discriminate].
  destruct ((atoi tok <? 0) || (atoi tok >? 255)); [discriminate |].
  intros H. apply IH in H. split; [now apply validate_number_digits |].
  pose proof (strtok_chars saved) as S.
  destruct (strtok saved) as [[t r] |]; [| exact S].
  destruct H as [T R]. now apply S.
Qed.

Lemma substring_whole (s : string) : forall n,
  (length s <= n)%nat -> substring 0 n s = s.
Proof.
  induction s as [| c s IH]; intros [| n] H; simpl in *; try reflexivity; try lia.
  rewrite IH by lia. reflexivity.
Qed.

(** An address of at most 15 characters that [validate_ip] accepts holds
    digits and dots only. *)
Lemma validate_ip_chars (ip_str : string) :
  Z.of_nat (length ip_str) < MAX_IP_LEN -> validate_ip ip_str = true ->
  ip_chars ip_str = true.
Proof.
  intros L. unfold validate_ip, strncpy. destruct ip_str as [| c s]; [discriminate |].
  rewrite substring_whole by (unfold MAX_IP_LEN in *; lia).
  destruct (validate_loop _ _ 0 0) as [[] |] eqn:V; try discriminate.
  intros _. apply validate_loop_chars in V.
  pose proof (strtok_chars (String c s)) as S.
  destruct (strtok (String c s)) as [[t r] |]; [| exact S].
  destruct V as [T R]. now apply S.
Qed.

(** *** Every address the stated rule accepts is accepted by [validate_ip] *)

Lemma atoi_validated (tok : string) :
  validate_number tok = true -> parse_digits 0 tok < 2 ^ 31 ->
  atoi tok = parse_digits 0 tok.
Proof.
  destruct tok as [| c r]; [discriminate |]. intros V.
  unfold validate_number in V. cbn [all_digits] in V.
  destruct (isdigit c) eqn:D; [| discriminate]. now apply atoi_digit_run.
Qed.

(** The first token of [split_dots] is the one [span_token] cuts off, and
    the remaining tokens are those of the string after it. *)
Lemma span_token_split_dots (s : string) :
  exists t ts rest,
    Spec.split_dots s = t :: ts /\ span_token s = (t, rest) /\
    (ts = [] -> rest = "") /\ (ts <> [] -> Spec.split_dots rest = ts).
Proof.
  induction s as [| c s (t & ts & rest & E & P & N & C)]; simpl.
  - exists "", [], "". repeat split; congruence.
  - destruct (is_dot c).
    + exists "", (Spec.split_dots s), s. rewrite E. repeat split; congruence.
    + rewrite E, P. exists (String c t), ts, rest. auto.
Qed.

Lemma strtok_split_dots (s t : string) (ts : list string) :
  Spec.split_dots s = t :: ts -> t <> "" ->
  exists rest,
    strtok s = Some (t, rest) /\
    (ts = [] -> rest = "") /\ (ts <> [] -> Spec.split_dots rest = ts).
Proof.
  intros E Ht. destruct (span_token_split_dots s) as (t' & ts' & rest & E' & P & N & C).
  rewrite E in E'. injection E' as <- <-. exists rest. split; [| auto].
  unfold strtok. destruct s as [| c s]; simpl in *.
  - injection E as <- _. congruence.
  - destruct (is_dot c) eqn:D.
    + injection E as <- _. congruence.
    + rewrite D. now rewrite <- P.
Qed.

Lemma validate_loop_octets (ts : list string) :
  forall t rest fuel dots octet_count,
  Spec.octet t = true -> forallb Spec.octet ts = true ->
  (ts = [] -> rest = "") -> (ts <> [] -> Spec.split_dots rest = ts) ->
  (length rest < fuel)%nat ->
  validate_loop fuel (Some (t, rest)) dots octet_count
  = Some (verdict (dots + Z.of_nat (List.length ts))
                  (octet_count + 1 + Z.of_nat (List.length ts))).
Proof.
  induction ts as [| t' ts IH]; intros t rest fuel dots octet_count Ht Hts N C F;
    (destruct fuel as [| fuel]; [lia |]);
    unfold Spec.octet in Ht; apply andb_true_iff in Ht as [V R]; apply Z.leb_le in R;
    cbn [validate_loop]; rewrite V; cbn [negb];
    rewrite (atoi_validated t V) by (change (2 ^ 31) with 2147483648; lia);
    pose proof (parse_digits_nonneg t 0 ltac:(lia)) as P;
    (assert (B : ((parse_digits 0 t <? 0) || (parse_digits 0 t >? 255)) = false)
      by (apply orb_false_iff; split;
          [apply Z.ltb_ge; lia | rewrite Z.gtb_ltb; apply Z.ltb_ge; lia]));
    rewrite B.
  - rewrite (N eq_refl). change (strtok "") with (@None (string * string)).
    simpl List.length. change (Z.of_nat 0) with 0. rewrite !Z.add_0_r.
    unfold verdict.
    destruct fuel; cbn [validate_loop];
      now destruct (negb (octet_count + 1 =? 4) || negb (dots =? 3)).
  - simpl in Hts. apply andb_true_iff in Hts as [Ht' Hts].
    assert (Ne : t' <> "") by (intros ->; discriminate Ht').
    destruct (strtok_split_dots rest t' ts (C ltac:(discriminate)) Ne)
      as (rest' & S & N' & C').
    rewrite S. pose proof (strtok_length _ _ _ S) as L.
    rewrite (IH t' rest' fuel (dots + 1) (octet_count + 1) Ht' Hts N' C') by lia.
    f_equal. f_equal; simpl List.length; lia.
Qed.

Lemma valid_ip_accepted (ip_str : string) :
  Z.of_nat (length ip_str) < MAX_IP_LEN -> Spec.valid_ip ip_str = true ->
  validate_ip ip_str = true.
Proof.
  intros L. unfold Spec.valid_ip. intros H. apply andb_true_iff in H as [H4 Ho].
  apply Z.eqb_eq in H4.
  destruct (Spec.split_dots ip_str) as [| t ts] eqn:E; [simpl in H4; lia |].
  simpl in Ho. apply andb_true_iff in Ho as [Ht Hts].
  assert (Ne : t <> "") by (intros ->; discriminate Ht).
  destruct (strtok_split_dots ip_str t ts E Ne) as (rest & S & N & C).
  unfold validate_ip, strncpy. destruct ip_str as [| c s]; [discriminate S |].
  rewrite substring_whole by (unfold MAX_IP_LEN in *; lia).
  rewrite S. pose proof (strtok_length _ _ _ S) as F.
  rewrite (validate_loop_octets ts t rest _ 0 0 Ht Hts N C) by lia.
  simpl List.length in H4.
  replace (Z.of_nat (List.length ts)) with 3 by lia. reflexivity.
Qed.

End Validation.

(** C2.  The string "1..2.3.4" has an empty token between its doubled dots
    and four dots in all, so the stated rule rejects it; [validate_ip]
    accepts it, as it accepts a leading or a trailing dot, because [strtok]
    passes over dots without yielding the empty tokens and [dots] counts the
    tokens after the first. *)
Theorem validate_ip_accepts_stray_dots :
  validate_ip "1..2.3.4" = true /\ Spec.valid_ip "1..2.3.4" = false /\
  validate_ip ".1.2.3.4" = true /\ Spec.valid_ip ".1.2.3.4" = false /\
  validate_ip "1.2.3.4." = true /\ Spec.valid_ip "1.2.3.4." = false.
Proof. repeat split. Qed.

(** ** Route history *)

Section History.

Lemma ip_chars_no_star (r : string) : ip_chars (String "*" r) = false.
Proof. reflexivity. Qed.

(** The key determines the two addresses: no accepted address holds the
    separator ['*']. *)
Lemma route_key_inj (s1 : string) : forall s2 d1 d2,
  ip_chars s1 = true -> ip_chars s2 = true ->
  route_key s1 d1 = route_key s2 d2 -> s1 = s2 /\ d1 = d2.
Proof.
  unfold route_key.
  induction s1 as [| c1 s1 IH]; intros [| c2 s2] d1 d2 H1 H2 E; simpl in E.
  - injection E as ->. auto.
  - injection E as <- _. now rewrite ip_chars_no_star in H2.
  - injection E as -> _. now rewrite ip_chars_no_star in H1.
  - injection E as -> E. simpl in H1, H2.
    apply andb_true_iff in H1 as [_ H1]. apply andb_true_iff in H2 as [_ H2].
    destruct (IH s2 d1 d2 H1 H2 E) as [-> ->]. auto.
Qed.

Lemma scanned_ip_chars (ip : string) : scanned_ip ip = true -> ip_chars ip = true.
Proof.
  unfold scanned_ip. intros H. apply andb_true_iff in H as [L V].
  apply Z.ltb_lt in L. now apply validate_ip_chars.
Qed.

(** The scan of the history finds the row of the first logged query with
    the same two addresses, and no row if there is none. *)
Lemma history_scan_first_match (source_ip destination_ip : string)
    (queries : list logged_query) :
  ip_chars source_ip = true ->
  Forall (fun q : logged_query => ip_chars (fst (fst q)) = true) queries ->
  forall l2, 0 <= l2 ->
  match first_match source_ip destination_ip queries with
  | Some path =>
      exists k key,
        history_scan (route_key source_ip destination_ip) (history_of queries) l2
        = l2 + Z.of_nat k /\
        nth_error (history_of queries) k = Some (key, path)
  | None =>
      history_scan (route_key source_ip destination_ip) (history_of queries) l2 = -1
  end.
Proof.
  intros Hs. induction 1 as [| [[s d] path] queries Hq _ IH]; intros l2 Hl; simpl.
  - reflexivity.
  - simpl in Hq. destruct (String.eqb_spec (route_key s d) (route_key source_ip destination_ip))
      as [E | N].
    + destruct (route_key_inj _ _ _ _ Hq Hs E) as [-> ->].
      rewrite !String.eqb_refl. simpl.
      exists 0%nat, (route_key source_ip destination_ip). split; [lia | reflexivity].
    + destruct (String.eqb_spec s source_ip) as [-> | Ns];
        [destruct (String.eqb_spec d destination_ip) as [-> | Nd]; [congruence |] |];
        simpl; specialize (IH (l2 + 1) ltac:(lia));
        (destruct (first_match source_ip destination_ip queries);
         [destruct IH as (k & key & E1 & E2); exists (S k), key; split; [lia | exact E2]
         | exact IH]).
Qed.

(** C4. The history is searched in insertion order for the first entry
    with the same source address and the same destination address as the
    query, compared as strings.  If there is one, the query ends with the
    path stored in it, the history and the console are left as they were and
    nothing is resolved; if there is none, the route is resolved and the
    attempt to log it follows. *)
Theorem history_lookup_first_match (queries : list logged_query)
    (source_ip destination_ip : string) (source_router dest_router : Z)
    (inp : list (option Z)) :
  scanned_ip source_ip = true ->
  Forall (fun q : logged_query => scanned_ip (fst (fst q)) = true) queries ->
  serve_query (history_of queries) source_ip destination_ip source_router dest_router inp
  = match first_match source_ip destination_ip queries with
    | Some path => Ok (HistoryFound path, history_of queries, inp)
    | None =>
        '(r, rest) <- resolve source_router dest_router inp ;;
        let '(h', logged) :=
          save_history (history_of queries) (route_key source_ip destination_ip) (encoded r) in
        Ok (if logged then NewRouteLogged r else HistoryFull r, h', rest)
    end.
Proof.
  intros Hs Hq.
  assert (Hq' : Forall (fun q : logged_query => ip_chars (fst (fst q)) = true) queries).
  { eapply Forall_impl; [| exact Hq]. intros q. apply scanned_ip_chars. }
  pose proof (history_scan_first_match source_ip destination_ip queries
                (scanned_ip_chars _ Hs) Hq' 0 ltac:(lia)) as S.
  unfold serve_query.
  destruct (first_match source_ip destination_ip queries) as [path |].
  - destruct S as (k & key & E1 & E2). rewrite E1. simpl Z.add.
    assert (K : (Z.of_nat k =? -1) = false) by (apply Z.eqb_neq; lia).
    rewrite K. cbn [negb]. unfold array_get.
    assert (K0 : (Z.of_nat k <? 0) = false) by (apply Z.ltb_ge; lia).
    rewrite K0, Nat2Z.id, E2. reflexivity.
  - rewrite S. reflexivity.
Qed.

Lemma history_lookup_first_match_witness :
  scanned_ip "10.0.0.1" = true /\
  serve_query
    (history_of [("10.0.0.1", "10.0.0.9", 12); ("10.0.0.1", "10.0.0.2", 14);
                 ("10.0.0.1", "10.0.0.2", 123)])
    "10.0.0.1" "10.0.0.2" 1 4 [Some 0; Some 2]
  = Ok (HistoryFound 14,
        history_of [("10.0.0.1", "10.0.0.9", 12); ("10.0.0.1", "10.0.0.2", 14);
                    ("10.0.0.1", "10.0.0.2", 123)],
        [Some 0; Some 2]).
Proof.
  split; [reflexivity |].
  apply (history_lookup_first_match
           [("10.0.0.1", "10.0.0.9", 12); ("10.0.0.1", "10.0.0.2", 14);
            ("10.0.0.1", "10.0.0.2", 123)]
           "10.0.0.1" "10.0.0.2" 1 4 [Some 0; Some 2]).
  - reflexivity.
  - repeat constructor.
Defined.

(** C5, as stated, fails: after twenty logged routes the routing loop is
    left, and the twenty-first query, a new one, is neither resolved nor
    answered; its two addresses and the answers meant for it stay unread. *)
Lemma full_history_stops_serving :
  match run_routing_simulation 21 FullHistory.console with
  | Ok (reports, h, unread) =>
      List.length reports = 20%nat /\
      history_count h = MAX_ROUTE_HISTORY /\
      history_scan (route_key "2.2.2.1" "3.3.3.1") h 0 = -1 /\
      unread = {| words := ["2.2.2.1"; "3.3.3.1"]; ints := [Some 1; Some 1] |}
  | _ => False
  end.
Proof. vm_compute. repeat split. Qed.

(** C5, amended.  With [MAX_ROUTE_HISTORY] routes logged the routing loop
    is left before another query is read: nothing is resolved, and the
    history and the console stay as they are.  The logging step, for its
    part, declines to log on a full history and leaves every entry as it
    was. *)
Theorem full_history_ends_session (bound : nat) (cfg : config) (continue_flag : Z)
    (h : history) (i : stdin) :
  MAX_ROUTE_HISTORY <= history_count h ->
  routing_loop bound cfg continue_flag h i = Ok ([], h, i) /\
  forall current_route_key path, save_history h current_route_key path = (h, false).
Proof.
  intros H. apply Z.ltb_ge in H. split.
  - destruct bound; simpl; now rewrite H, andb_false_r.
  - intros key path. unfold save_history. now rewrite H.
Qed.

Lemma full_history_ends_session_witness :
  MAX_ROUTE_HISTORY <= history_count (repeat ("1.1.1.1*2.2.2.1", 12) 20) /\
  routing_loop 3 {| router_configs := []; num_networks := [] |} 0
    (repeat ("1.1.1.1*2.2.2.1", 12) 20) {| words := ["1.1.1.1"]; ints := [] |}
  = Ok ([], repeat ("1.1.1.1*2.2.2.1", 12) 20, {| words := ["1.1.1.1"]; ints := [] |}) /\
  forall current_route_key path,
    save_history (repeat ("1.1.1.1*2.2.2.1", 12) 20) current_route_key path
    = (repeat ("1.1.1.1*2.2.2.1", 12) 20, false).
Proof.
  split; [vm_compute; discriminate |].
  apply (full_history_ends_session 3 {| router_configs := []; num_networks := [] |} 0
           (repeat ("1.1.1.1*2.2.2.1", 12) 20) {| words := ["1.1.1.1"]; ints := [] |}).
  vm_compute. discriminate.
Defined.

(** *** The histories the routing loop builds *)

Lemma read_endpoint_scanned (cfg : config) (inp : list string) :
  forall ip router rest,
  read_endpoint cfg inp = Ok (ip, router, rest) ->
  scanned_ip ip = true /\ router = find_router_by_ip cfg ip /\ router <> 0.
Proof.
  induction inp as [| w inp IH]; intros ip router rest; simpl; [discriminate |].
  unfold scan_word, scanned_ip.
  destruct (Z.of_nat (length w) <? MAX_IP_LEN) eqn:L; [| discriminate]. cbn [bind].
  destruct (validate_ip w) eqn:V; cbn [negb]; [| apply IH].
  destruct (Z.eqb_spec (find_router_by_ip cfg w) 0) as [E | N]; [apply IH |].
  intros H. injection H as <- <- <-. now rewrite L, V.
Qed.

Lemma history_of_snoc (queries : list logged_query) (s d : string) (path : Z) :
  (history_of queries ++ [(route_key s d, path)])%list
  = history_of (queries ++ [(s, d, path)]).
Proof. unfold history_of. now rewrite map_app. Qed.

(** A query leaves the history as it was or logs itself at the end. *)
Lemma serve_query_history (queries : list logged_query) (s d : string)
    (sr dr : Z) (inp : list (option Z)) (rep : report) (h : history)
    (rest : list (option Z)) :
  serve_query (history_of queries) s d sr dr inp = Ok (rep, h, rest) ->
  h = history_of queries \/ exists path, h = history_of (queries ++ [(s, d, path)]).
Proof.
  unfold serve_query.
  destruct (negb (history_scan (route_key s d) (history_of queries) 0 =? -1)).
  - destruct (array_get _ _ _) as [e | | |]; try discriminate.
    cbn [bind]. intros H. injection H as _ <- _. now left.
  - destruct (resolve sr dr inp) as [[r rest'] | | |]; try discriminate.
    cbn [bind]. unfold save_history.
    destruct (history_count (history_of queries) <? MAX_ROUTE_HISTORY);
      intros H; injection H as _ <- _; [right | now left].
    exists (encoded r). apply history_of_snoc.
Qed.

(** Every history the routing loop reaches is that of logged queries whose
    source address went through the input loop. *)
Lemma routing_loop_history (bound : nat) (cfg : config) :
  forall continue_flag queries i reports h i',
  Forall (fun q : logged_query => scanned_ip (fst (fst q)) = true) queries ->
  routing_loop bound cfg continue_flag (history_of queries) i = Ok (reports, h, i') ->
  exists queries',
    h = history_of queries' /\
    Forall (fun q : logged_query => scanned_ip (fst (fst q)) = true) queries'.
Proof.
  induction bound as [| bound IH]; intros continue_flag queries i reports h i' Hq;
    cbn [routing_loop];
    destruct ((continue_flag =? 0) && (history_count (history_of queries) <? MAX_ROUTE_HISTORY));
    try discriminate;
    try (intros H; injection H as <- <- <-; now exists queries).
  unfold routing_query.
  destruct (read_endpoint cfg (words i)) as [[[s sr] w1] | | |] eqn:Rs; try discriminate.
  cbn [bind].
  destruct (read_endpoint cfg w1) as [[[d dr] w2] | | |] eqn:Rd; try discriminate.
  cbn [bind]. apply read_endpoint_scanned in Rs as [Ss _].
  destruct (serve_query (history_of queries) s d sr dr (ints i))
    as [[[rep h1] ints1] | | |] eqn:Q; try discriminate.
  cbn [bind words ints].
  destruct (read_continue ints1) as [[flag ints'] | | |]; try discriminate.
  cbn [bind].
  destruct (routing_loop bound cfg flag h1 _) as [[[reps h''] i''] | | |] eqn:R;
    try discriminate.
  cbn [bind]. intros H. injection H as _ <- _.
  destruct (serve_query_history _ _ _ _ _ _ _ _ _ Q) as [-> | [path ->]].
  - now apply IH in R.
  - apply IH in R; [exact R |]. apply Forall_app. split; [exact Hq | now constructor].
Qed.

End History.

(** ** Loading the configuration *)

Section Loading.

Lemma read_count_accepts (n : Z) (rest : list (option Z)) :
  0 <= n <= MAX_NETWORKS_PER_ROUTER -> read_count (Some n :: rest) = Ok (n, rest).
Proof.
  intros H. simpl.
  assert (R : ((n <? 0) || (n >? MAX_NETWORKS_PER_ROUTER)) = false).
  { apply orb_false_iff. split; [apply Z.ltb_ge; lia |].
    rewrite Z.gtb_ltb. apply Z.ltb_ge. lia. }
  now rewrite R.
Qed.

Lemma read_counts_accepts (ns : list Z) (rest : list (option Z)) :
  Forall (fun n => 0 <= n <= MAX_NETWORKS_PER_ROUTER) ns ->
  read_counts (List.length ns) (map Some ns ++ rest) = Ok (ns, rest).
Proof.
  induction 1 as [| n ns Hn _ IH]; [reflexivity |].
  cbn [List.length map app read_counts].
  rewrite read_count_accepts by exact Hn. cbn [bind]. rewrite IH. reflexivity.
Qed.

Lemma read_ip_accepts (w : string) (rest : list string) :
  scanned_ip w = true -> read_ip (w :: rest) = Ok (w, rest).
Proof.
  unfold scanned_ip. intros H. apply andb_true_iff in H as [L V].
  simpl. unfold scan_word. rewrite L. cbn [bind]. now rewrite V.
Qed.

Lemma read_row_accepts (row rest : list string) :
  Forall (fun ip => scanned_ip ip = true) row ->
  read_row (List.length row) (row ++ rest) = Ok (row, rest).
Proof.
  induction 1 as [| w row Hw _ IH]; [reflexivity |].
  cbn [List.length app read_row].
  rewrite read_ip_accepts by exact Hw. cbn [bind]. rewrite IH. reflexivity.
Qed.

Lemma read_rows_accepts (rows : list (list string)) (rest : list string) :
  Forall (Forall (fun ip => scanned_ip ip = true)) rows ->
  read_rows (map (fun row => Z.of_nat (List.length row)) rows) (List.concat rows ++ rest)
  = Ok (rows, rest).
Proof.
  induction 1 as [| row rows Hr _ IH]; [reflexivity |].
  cbn [map List.concat read_rows]. rewrite Nat2Z.id, <- app_assoc.
  rewrite read_row_accepts by exact Hr. cbn [bind]. rewrite IH. reflexivity.
Qed.

(** The inner loop of [find_router_by_ip] over a whole row. *)
Lemma row_has_In (ip : string) (row : list string) : forall j,
  row_has ip row j (j + Z.of_nat (List.length row)) = true <-> In ip row.
Proof.
  induction row as [| x row IH]; intros j; simpl List.length; cbn [row_has In].
  - split; [discriminate | contradiction].
  - destruct (Z.ltb_spec j (j + Z.of_nat (S (List.length row)))) as [_ | L]; [| lia].
    replace (j + Z.of_nat (S (List.length row)))
      with (j + 1 + Z.of_nat (List.length row)) by lia.
    destruct (String.eqb_spec x ip) as [-> | N].
    + split; auto.
    + rewrite IH. split; [auto | intros [E | I]; [contradiction | exact I]].
Qed.

(** The outer loop returns the first router whose row holds the address. *)
Lemma find_router_from_first (ip : string) (pre : list (list string)) :
  forall (row : list string) (post : list (list string)) (i : Z),
  In ip row -> (forall r, In r pre -> ~ In ip r) ->
  find_router_from ip (pre ++ row :: post)
    (map (fun row => Z.of_nat (List.length row)) (pre ++ row :: post)) i
  = i + Z.of_nat (List.length pre) + 1.
Proof.
  induction pre as [| r pre IH]; intros row post i Hin Hpre; cbn [app map find_router_from].
  - pose proof (row_has_In ip row 0) as [_ R]. simpl Z.add in R. rewrite R by exact Hin.
    simpl. lia.
  - pose proof (row_has_In ip r 0) as [R _]. simpl Z.add in R.
    destruct (row_has ip r 0 (Z.of_nat (List.length r))).
    + exfalso. apply (Hpre r); [now left | now apply R].
    + rewrite IH; [simpl List.length; lia | exact Hin |].
      intros r' Hr'. apply Hpre. now right.
Qed.

Lemma find_router_from_range (ip : string) (rows : list (list string)) :
  forall counts i, 0 <= i ->
  find_router_from ip rows counts i = 0 \/
  i < find_router_from ip rows counts i <= i + Z.of_nat (List.length rows).
Proof.
  induction rows as [| row rows IH]; intros [| n counts] i Hi; cbn [find_router_from];
    auto.
  destruct (row_has ip row 0 n).
  - right. simpl List.length. lia.
  - destruct (IH counts (i + 1) ltac:(lia)) as [E | R]; [now left | right].
    simpl List.length. lia.
Qed.

Lemma read_rows_length (counts : list Z) : forall inp rows rest,
  read_rows counts inp = Ok (rows, rest) -> List.length rows = List.length counts.
Proof.
  induction counts as [| n counts IH]; intros inp rows rest; cbn [read_rows].
  - intros H. injection H as <- _. reflexivity.
  - destruct (read_row (Z.to_nat n) inp) as [[row r1] | | |]; try discriminate.
    cbn [bind].
    destruct (read_rows counts r1) as [[rows' r2] | | |] eqn:E; try discriminate.
    cbn [bind]. intros H. injection H as <- _. simpl. f_equal. now apply IH in E.
Qed.

Lemma read_counts_length (routers : nat) : forall inp counts rest,
  read_counts routers inp = Ok (counts, rest) -> List.length counts = routers.
Proof.
  induction routers as [| k IH]; intros inp counts rest; cbn [read_counts].
  - intros H. injection H as <- _. reflexivity.
  - destruct (read_count inp) as [[n r1] | | |]; try discriminate. cbn [bind].
    destruct (read_counts k r1) as [[ns r2] | | |] eqn:E; try discriminate.
    cbn [bind]. intros H. injection H as <- _. simpl. f_equal. now apply IH in E.
Qed.

(** A loaded configuration has one row per router... *)
Lemma load_config_rows (i i' : stdin) (cfg : config) :
  load_config i = Ok (cfg, i') ->
  List.length (router_configs cfg) = Z.to_nat NUM_ROUTERS.
Proof.
  unfold load_config.
  destruct (read_counts (Z.to_nat NUM_ROUTERS) (ints i)) as [[counts r1] | | |] eqn:C;
    try discriminate.
  cbn [bind].
  destruct (read_rows counts (words i)) as [[rows r2] | | |] eqn:R; try discriminate.
  cbn [bind]. intros H. injection H as <- _. simpl.
  apply read_rows_length in R. apply read_counts_length in C. rewrite R, C. reflexivity.
Qed.

(** ... so the router of an address that was found is a router id. *)
Lemma find_router_by_ip_range (cfg : config) (ip : string) :
  List.length (router_configs cfg) = Z.to_nat NUM_ROUTERS ->
  find_router_by_ip cfg ip <> 0 ->
  1 <= find_router_by_ip cfg ip <= NUM_ROUTERS.
Proof.
  intros L N. unfold find_router_by_ip in *.
  destruct (find_router_from_range ip (router_configs cfg) (num_networks cfg) 0 ltac:(lia))
    as [E | R]; [contradiction |].
  rewrite L in R. unfold NUM_ROUTERS in *. simpl Z.of_nat in R. lia.
Qed.

End Loading.

(** C8, as stated, fails: the address "10.0.0.1" is given to router 1 and
    again to router 2; the configuration is loaded as given, the program goes
    on to serve a query, and the address is taken to be on router 1. *)
Lemma duplicate_address_is_loaded :
  load_config {| words := ["10.0.0.1"; "10.0.0.1"];
                 ints := [Some 1; Some 1; Some 0; Some 0] |}
  = Ok ({| router_configs := [["10.0.0.1"]; ["10.0.0.1"]; []; []];
           num_networks := [1; 1; 0; 0] |},
        {| words := []; ints := [] |}) /\
  find_router_by_ip {| router_configs := [["10.0.0.1"]; ["10.0.0.1"]; []; []];
                       num_networks := [1; 1; 0; 0] |} "10.0.0.1" = 1 /\
  run_routing_simulation 1
    {| words := ["10.0.0.1"; "10.0.0.1"; "10.0.0.1"; "10.0.0.1"];
       ints := [Some 1; Some 1; Some 0; Some 0; Some 1; Some 1] |}
  = Ok ([NewRouteLogged {| encoded := 11; ids := [1; 1] |}],
        [("10.0.0.1*10.0.0.1", 11)],
        {| words := []; ints := [] |}).
Proof. repeat split. Qed.

(** C8, amended.  Loading makes no check for duplicates: four rows of
    addresses, each row within [MAX_NETWORKS_PER_ROUTER] and each address
    accepted by [validate_ip], are loaded exactly as given, whether or not
    an address occurs under two routers; a later lookup of an address
    returns the first router, in router order, whose row holds it. *)
Theorem load_config_keeps_duplicates (rows : list (list string))
    (more_words : list string) (more_ints : list (option Z)) :
  List.length rows = Z.to_nat NUM_ROUTERS ->
  Forall (fun row => Z.of_nat (List.length row) <= MAX_NETWORKS_PER_ROUTER) rows ->
  Forall (Forall (fun ip => scanned_ip ip = true)) rows ->
  let cfg := {| router_configs := rows;
                num_networks := map (fun row => Z.of_nat (List.length row)) rows |} in
  load_config
    {| words := (List.concat rows ++ more_words)%list;
       ints := (map Some (map (fun row => Z.of_nat (List.length row)) rows)
                ++ more_ints)%list |}
  = Ok (cfg, {| words := more_words; ints := more_ints |}) /\
  forall ip pre row post,
    rows = (pre ++ row :: post)%list -> In ip row -> (forall r, In r pre -> ~ In ip r) ->
    find_router_by_ip cfg ip = Z.of_nat (List.length pre) + 1.
Proof.
  intros Hlen Hmax Hips cfg. split.
  - unfold load_config. cbn [words ints].
    replace (Z.to_nat NUM_ROUTERS)
      with (List.length (map (fun row : list string => Z.of_nat (List.length row)) rows))
      by (rewrite length_map; exact Hlen).
    rewrite read_counts_accepts.
    + cbn [bind]. rewrite read_rows_accepts by exact Hips. reflexivity.
    + apply Forall_map. eapply Forall_impl; [| exact Hmax]. simpl. lia.
  - intros ip pre row post -> Hin Hpre. unfold find_router_by_ip, cfg. simpl.
    rewrite find_router_from_first by trivial. lia.
Qed.

Lemma load_config_keeps_duplicates_witness :
  let rows := [["10.0.0.1"; "10.0.0.2"]; ["10.0.0.3"]; ["10.0.0.2"]; []] in
  let cfg := {| router_configs := rows; num_networks := [2; 1; 1; 0] |} in
  load_config
    {| words := ["10.0.0.1"; "10.0.0.2"; "10.0.0.3"; "10.0.0.2"; "10.0.0.2"];
       ints := [Some 2; Some 1; Some 1; Some 0; Some 7] |}
  = Ok (cfg, {| words := ["10.0.0.2"]; ints := [Some 7] |}) /\
  forall ip pre row post,
    rows = (pre ++ row :: post)%list -> In ip row -> (forall r, In r pre -> ~ In ip r) ->
    find_router_by_ip cfg ip = Z.of_nat (List.length pre) + 1.
Proof.
  apply (load_config_keeps_duplicates
           [["10.0.0.1"; "10.0.0.2"]; ["10.0.0.3"]; ["10.0.0.2"]; []]
           ["10.0.0.2"] [Some 7]).
  - reflexivity.
  - repeat constructor; vm_compute; discriminate.
  - repeat constructor.
Defined.

(** ** The scenarios of the specification, run on the model *)

(** The accepted and rejected addresses listed with the validity rule. *)
Example validate_ip_listed :
  validate_ip "192.168.1.1" = true /\ validate_ip "192.168.1" = false /\
  validate_ip "192.168.1.256" = false /\ validate_ip "1.2.3.4.5" = false /\
  validate_ip "a.b.c.d" = false /\ validate_ip "" = false /\
  validate_ip "01.02.03.04" = true.
Proof. repeat split. Qed.

(** Source on router 1, destination on router 4, direct path accepted: the
    route [1, 4] is logged; the same two addresses again: the history
    answers with 14 and nothing is read from the hop input. *)
Example direct_route_then_history :
  run_routing_simulation 2
    {| words := ["10.0.1.1"; "10.0.4.1"; "10.0.1.1"; "10.0.4.1"; "10.0.1.1"; "10.0.4.1"];
       ints := [Some 1; Some 0; Some 0; Some 1; Some 1; Some 0; Some 1] |}
  = Ok ([NewRouteLogged {| encoded := 14; ids := [1; 4] |}; HistoryFound 14],
        [("10.0.1.1*10.0.4.1", 14)],
        {| words := []; ints := [] |}).
Proof. reflexivity. Qed.

(** Routers 1 and 3 are not adjacent: hop 2, then finalize, gives [1, 2, 3]. *)
Example manual_route_1_2_3 :
  adjacent 1 3 = false /\
  resolve 1 3 [Some 2; Some 0] = Ok ({| encoded := 123; ids := [1; 2; 3] |}, []).
Proof. split; reflexivity. Qed.

(** * Further properties of the code *)

(** ** [validate_ip]: what exactly is accepted *)

Section Tokens.

Lemma length_append (s1 s2 : string) :
  length (s1 ++ s2) = (length s1 + length s2)%nat.
Proof. induction s1 as [| c s1 IH]; simpl; [reflexivity | now rewrite IH]. Qed.

Lemma strtok_tokens_dot (c : ascii) (s : string) :
  is_dot c = true -> strtok_tokens (String c s) = strtok_tokens s.
Proof. intros D. unfold strtok_tokens. simpl. now rewrite D. Qed.

Lemma strtok_tokens_skip (s : string) : strtok_tokens (skip_delims s) = strtok_tokens s.
Proof.
  induction s as [| c s IH]; simpl; [reflexivity |].
  destruct (is_dot c) eqn:D; [| reflexivity]. now rewrite strtok_tokens_dot.
Qed.

Lemma skip_delims_head (s : string) (c : ascii) (r : string) :
  skip_delims s = String c r -> is_dot c = false.
Proof.
  induction s as [| c' s IH]; simpl; [discriminate |].
  destruct (is_dot c') eqn:D; [exact IH |]. intros H. injection H as <- _. exact D.
Qed.

(** What [strtok] returns against the list of tokens: NULL when there is no
    token, else the first token, the saved pointer standing before the
    remaining ones. *)
Lemma strtok_tokens_step (s : string) :
  match strtok s with
  | None => strtok_tokens s = []
  | Some (t, rest) => strtok_tokens s = t :: strtok_tokens rest
  end.
Proof.
  unfold strtok. rewrite <- (strtok_tokens_skip s).
  destruct (skip_delims s) as [| c r] eqn:E; [reflexivity |].
  pose proof (skip_delims_head _ _ _ E) as D.
  destruct (span_token_split_dots (String c r)) as (t & ts & rest & Es & P & N & C).
  change (span_token (String c r)) with (span_token (String c r)).
  rewrite P. unfold strtok_tokens at 1. rewrite Es.
  assert (Ne : negb (String.eqb t "") = true).
  { simpl in P. rewrite D in P. destruct (span_token r). injection P as <- _. reflexivity. }
  cbn [filter]. rewrite Ne. f_equal.
  destruct ts as [| t' ts'].
  - rewrite (N eq_refl). reflexivity.
  - unfold strtok_tokens. now rewrite (C ltac:(discriminate)).
Qed.

Lemma validate_loop_tokens (fuel : nat) : forall t rest dots octet_count,
  (length rest < fuel)%nat ->
  validate_loop fuel (Some (t, rest)) dots octet_count
  = Some (forallb token_passes (t :: strtok_tokens rest)
          && verdict (dots + Z.of_nat (List.length (strtok_tokens rest)))
                     (octet_count + 1 + Z.of_nat (List.length (strtok_tokens rest)))).
Proof.
  induction fuel as [| fuel IH]; intros t rest dots octet_count F; [lia |].
  cbn [validate_loop forallb]. unfold token_passes at 1.
  destruct (validate_number t); cbn [negb andb]; [| reflexivity].
  destruct ((atoi t <? 0) || (atoi t >? 255)); cbn [negb andb]; [reflexivity |].
  pose proof (strtok_tokens_step rest) as T.
  destruct (strtok rest) as [[t' rest'] |] eqn:E.
  - rewrite T. pose proof (strtok_length _ _ _ E) as L.
    rewrite IH by lia. f_equal. f_equal. cbn [List.length].
    f_equal; lia.
  - rewrite T. cbn [forallb List.length andb]. change (Z.of_nat 0) with 0.
    rewrite !Z.add_0_r. unfold verdict.
    destruct fuel; cbn [validate_loop];
      now destruct (negb (octet_count + 1 =? 4) || negb (dots =? 3)).
Qed.

Lemma split_dots_weight (s : string) :
  list_sum (map (fun t => S (length t)) (Spec.split_dots s)) = S (length s).
Proof.
  induction s as [| c s IH]; simpl; [reflexivity |].
  destruct (is_dot c); simpl; [now rewrite IH |].
  destruct (Spec.split_dots s) as [| t ts]; simpl in *; lia.
Qed.

Lemma filter_weight (p : string -> bool) (l : list string) :
  (list_sum (map (fun t => S (length t)) (filter p l))
   <= list_sum (map (fun t => S (length t)) l))%nat.
Proof.
  induction l as [| t l IH]; simpl; [lia |]. destruct (p t); simpl; lia.
Qed.

(** The tokens and the dots between them fit in the buffer. *)
Lemma strtok_tokens_weight (s : string) :
  (list_sum (map (fun t => S (length t)) (strtok_tokens s)) <= S (length s))%nat.
Proof.
  unfold strtok_tokens. rewrite <- split_dots_weight. apply filter_weight.
Qed.

Lemma strtok_tokens_nonempty (s : string) :
  Forall (fun t => (1 <= length t)%nat) (strtok_tokens s).
Proof.
  unfold strtok_tokens. apply Forall_forall. intros t H.
  apply filter_In in H as [_ H]. destruct t; [discriminate | simpl; lia].
Qed.

(** Four tokens in a buffer of 15 characters: none has more than 9. *)
Lemma four_tokens_short (s : string) :
  (length s <= 15)%nat -> List.length (strtok_tokens s) = 4%nat ->
  Forall (fun t => (length t <= 9)%nat) (strtok_tokens s).
Proof.
  intros L F. pose proof (strtok_tokens_weight s) as W.
  pose proof (strtok_tokens_nonempty s) as N.
  destruct (strtok_tokens s) as [| a [| b [| c [| d [| e l]]]]]; try discriminate.
  inversion N as [| ? ? Na N1]; subst. inversion N1 as [| ? ? Nb N2]; subst.
  inversion N2 as [| ? ? Nc N3]; subst. inversion N3 as [| ? ? Nd _]; subst.
  simpl in W. repeat (apply Forall_cons; [lia |]). apply Forall_nil.
Qed.

Lemma parse_digits_bound (t : string) : forall a,
  0 <= a -> parse_digits a t < (a + 1) * 10 ^ Z.of_nat (length t).
Proof.
  induction t as [| c t IH]; intros a Ha.
  - simpl. lia.
  - cbn [parse_digits length]. rewrite Nat2Z.inj_succ, Z.pow_succ_r by lia.
    assert (P : 0 < 10 ^ Z.of_nat (length t)) by (apply Z.pow_pos_nonneg; lia).
    destruct (isdigit c) eqn:D; [| nia].
    unfold isdigit in D. apply andb_true_iff in D as [D1 D2].
    apply Z.leb_le in D1. apply Z.leb_le in D2.
    assert (V : 0 <= digit_val c <= 9) by (unfold digit_val; lia).
    specialize (IH (a * 10 + digit_val c) ltac:(lia)). nia.
Qed.

(** On a token of at most 9 characters the tests of the loop are: a
    non-empty run of digits of value at most 255. *)
Lemma token_passes_octet (t : string) :
  (length t <= 9)%nat -> token_passes t = Spec.octet t.
Proof.
  intros L. unfold token_passes, Spec.octet.
  destruct (validate_number t) eqn:V; [| reflexivity]. cbn [andb].
  pose proof (parse_digits_bound t 0 ltac:(lia)) as B.
  pose proof (parse_digits_nonneg t 0 ltac:(lia)) as P.
  assert (T : 10 ^ Z.of_nat (length t) <= 10 ^ 9) by (apply Z.pow_le_mono_r; lia).
  change (10 ^ 9) with 1000000000 in T.
  rewrite (atoi_validated t V) by (change (2 ^ 31) with 2147483648; lia).
  destruct (Z.ltb_spec (parse_digits 0 t) 0); [lia |]. cbn [orb].
  rewrite Z.gtb_ltb.
  destruct (Z.ltb_spec 255 (parse_digits 0 t)); destruct (Z.leb_spec (parse_digits 0 t) 255);
    try lia; reflexivity.
Qed.

Lemma forallb_ext_Forall {A : Type} (f g : A -> bool) (P : A -> Prop) (l : list A) :
  (forall x, P x -> f x = g x) -> Forall P l -> forallb f l = forallb g l.
Proof.
  intros E. induction 1 as [| x l Hx _ IH]; simpl; [reflexivity |].
  now rewrite (E x Hx), IH.
Qed.

Lemma substring_length_le (s : string) : forall n, (length (substring 0 n s) <= n)%nat.
Proof.
  induction s as [| c s IH]; intros [| n]; simpl; try lia. specialize (IH n). lia.
Qed.

Lemma substring_app_prefix (s t : string) : substring 0 (length s) (s ++ t) = s.
Proof.
  induction s as [| c s IH]; simpl.
  - destruct t; reflexivity.
  - now rewrite IH.
Qed.

End Tokens.

(** X1. [validate_ip] accepts a string exactly when the non-empty runs of
    characters between the dots of its first 15 characters are four in
    number and each is a run of digits of value at most 255.  Dots in a row
    and dots at either end count for nothing, leading zeros are allowed, and
    whatever follows the fifteenth character is not looked at. *)
Theorem validate_ip_four_octet_tokens (ip_str : string) :
  validate_ip ip_str
  = let tokens := strtok_tokens (strncpy ip_str (Z.to_nat (MAX_IP_LEN - 1))) in
    (Z.of_nat (List.length tokens) =? 4) && forallb Spec.octet tokens.
Proof.
  unfold validate_ip. set (temp_ip := strncpy ip_str (Z.to_nat (MAX_IP_LEN - 1))).
  assert (L : (length temp_ip <= 15)%nat) by apply substring_length_le.
  cbv zeta. destruct ip_str as [| c0 s0]; [reflexivity |].
  pose proof (strtok_tokens_step temp_ip) as T.
  destruct (strtok temp_ip) as [[t rest] |] eqn:E.
  - pose proof (strtok_length _ _ _ E) as F.
    rewrite validate_loop_tokens by lia. rewrite <- T.
    pose proof (four_tokens_short temp_ip L) as Short. rewrite T in Short |- *.
    cbn [List.length] in *.
    set (n := List.length (strtok_tokens rest)) in *.
    unfold verdict. rewrite !Z.add_0_l.
    destruct (Nat.eq_dec n 3) as [N3 | N3].
    + rewrite N3 in *. change (1 + Z.of_nat 3 =? 4) with true.
      change (Z.of_nat 3 =? 3) with true. change (Z.of_nat 4 =? 4) with true.
      cbn [negb orb andb]. rewrite andb_true_r.
      apply forallb_ext_Forall with (P := fun t => (length t <= 9)%nat);
        [exact token_passes_octet | now apply Short].
    + assert (Z4 : (Z.of_nat (S n) =? 4) = false) by (apply Z.eqb_neq; lia).
      assert (Z3 : (Z.of_nat n =? 3) = false) by (apply Z.eqb_neq; lia).
      rewrite Z4, Z3. cbn [negb orb andb]. rewrite orb_true_r. apply andb_false_r.
  - rewrite T. cbn [validate_loop]. reflexivity.
Qed.

(** X2. Only the first 15 characters count: a string of 15 characters and
    any string that starts with it get the same answer.  So
    "100.100.100.1000", whose last part is 1000, is accepted. *)
Theorem validate_ip_reads_15_characters (s t : string) :
  length s = Z.to_nat (MAX_IP_LEN - 1) -> validate_ip (s ++ t) = validate_ip s.
Proof.
  intros L. unfold validate_ip, strncpy. rewrite <- L.
  rewrite substring_app_prefix, substring_whole by lia.
  destruct s as [| c s]; [discriminate L | reflexivity].
Qed.

Lemma validate_ip_reads_15_characters_witness :
  length "100.100.100.100" = Z.to_nat (MAX_IP_LEN - 1) /\
  validate_ip ("100.100.100.100" ++ "0") = validate_ip "100.100.100.100".
Proof.
  split; [reflexivity |]. apply (validate_ip_reads_15_characters "100.100.100.100" "0").
  reflexivity.
Defined.

(** ** [find_router_by_ip] and the input loops *)

Section Lookup.

Lemma find_router_from_cases (ip : string) (rows : list (list string)) :
  forall i,
  (find_router_from ip rows (map (fun row => Z.of_nat (List.length row)) rows) i = 0 /\
   forall row, In row rows -> ~ In ip row) \/
  (exists pre row post,
     rows = (pre ++ row :: post)%list /\
     find_router_from ip rows (map (fun row => Z.of_nat (List.length row)) rows) i
     = i + Z.of_nat (List.length pre) + 1 /\
     In ip row /\ forall r, In r pre -> ~ In ip r).
Proof.
  induction rows as [| row rows IH]; intros i; cbn [map find_router_from].
  - left. split; [reflexivity | intros row []].
  - pose proof (row_has_In ip row 0) as R. simpl Z.add in R.
    destruct (row_has ip row 0 (Z.of_nat (List.length row))).
    + right. exists [], row, rows. simpl. repeat split; [lia | now apply R | intros r []].
    + assert (N : ~ In ip row) by (intros H; apply R in H; discriminate).
      destruct (IH (i + 1)) as [[E F] | (pre & row' & post & -> & E & I & F)].
      * left. split; [exact E |]. intros r [<- | H]; [exact N | now apply F].
      * right. exists (row :: pre), row', post. simpl List.length.
        repeat split; [lia | exact I |]. intros r [<- | H]; [exact N | now apply F].
Qed.

Lemma read_count_range (inp : list (option Z)) : forall n rest,
  read_count inp = Ok (n, rest) -> 0 <= n <= MAX_NETWORKS_PER_ROUTER.
Proof.
  induction inp as [| x inp IH]; intros n rest; simpl; [discriminate |].
  set (m := match x with Some n => n | None => -1 end).
  destruct ((m <? 0) || (m >? MAX_NETWORKS_PER_ROUTER)) eqn:B; [apply IH |].
  intros H. injection H as <- _.
  apply orb_false_iff in B as [B1 B2]. apply Z.ltb_ge in B1.
  rewrite Z.gtb_ltb in B2. apply Z.ltb_ge in B2. lia.
Qed.

Lemma read_counts_range (routers : nat) : forall inp counts rest,
  read_counts routers inp = Ok (counts, rest) ->
  Forall (fun n => 0 <= n <= MAX_NETWORKS_PER_ROUTER) counts.
Proof.
  induction routers as [| k IH]; intros inp counts rest; cbn [read_counts].
  - intros H. injection H as <- _. constructor.
  - destruct (read_count inp) as [[n r1] | | |] eqn:C; try discriminate. cbn [bind].
    destruct (read_counts k r1) as [[ns r2] | | |] eqn:E; try discriminate.
    cbn [bind]. intros H. injection H as <- _.
    constructor; [now apply read_count_range in C | now apply IH in E].
Qed.

Lemma read_ip_scanned (inp : list string) : forall ip rest,
  read_ip inp = Ok (ip, rest) -> scanned_ip ip = true.
Proof.
  induction inp as [| w inp IH]; intros ip rest; simpl; [discriminate |].
  unfold scan_word, scanned_ip.
  destruct (Z.of_nat (length w) <? MAX_IP_LEN) eqn:L; [| discriminate]. cbn [bind].
  destruct (validate_ip w) eqn:V; [| apply IH].
  intros H. injection H as <- _. now rewrite L, V.
Qed.

Lemma read_row_scanned (n : nat) : forall inp row rest,
  read_row n inp = Ok (row, rest) ->
  List.length row = n /\ Forall (fun ip => scanned_ip ip = true) row.
Proof.
  induction n as [| k IH]; intros inp row rest; cbn [read_row].
  - intros H. injection H as <- _. split; [reflexivity | constructor].
  - destruct (read_ip inp) as [[ip r1] | | |] eqn:I; try discriminate. cbn [bind].
    destruct (read_row k r1) as [[ips r2] | | |] eqn:E; try discriminate.
    cbn [bind]. intros H. injection H as <- _.
    destruct (IH _ _ _ E) as [L F]. apply read_ip_scanned in I.
    split; [simpl; now rewrite L | now constructor].
Qed.

Lemma read_rows_scanned (counts : list Z) : forall inp rows rest,
  Forall (fun n => 0 <= n <= MAX_NETWORKS_PER_ROUTER) counts ->
  read_rows counts inp = Ok (rows, rest) ->
  map (fun row => Z.of_nat (List.length row)) rows = counts /\
  Forall (Forall (fun ip => scanned_ip ip = true)) rows.
Proof.
  induction counts as [| n counts IH]; intros inp rows rest R; cbn [read_rows].
  - intros H. injection H as <- _. split; [reflexivity | constructor].
  - inversion R as [| ? ? Rn Rc]; subst.
    destruct (read_row (Z.to_nat n) inp) as [[row r1] | | |] eqn:E; try discriminate.
    cbn [bind].
    destruct (read_rows counts r1) as [[rows' r2] | | |] eqn:E'; try discriminate.
    cbn [bind]. intros H. injection H as <- _.
    destruct (read_row_scanned _ _ _ _ E) as [L F].
    destruct (IH _ _ _ Rc E') as [M F'].
    split; [| now constructor]. cbn [map]. rewrite L, M. f_equal.
    cbv beta in Rn. lia.
Qed.

End Lookup.

(** X3. [find_router_by_ip] on a configuration as start-up leaves it: the
    result is 0 exactly when no router lists the address; otherwise it is
    the number of the first router that lists it, whatever later routers
    list. *)
Theorem find_router_by_ip_first_owner (cfg : config) (ip : string) :
  num_networks cfg = map (fun row => Z.of_nat (List.length row)) (router_configs cfg) ->
  (find_router_by_ip cfg ip = 0 /\
   forall row, In row (router_configs cfg) -> ~ In ip row) \/
  (exists pre row post,
     router_configs cfg = (pre ++ row :: post)%list /\
     find_router_by_ip cfg ip = Z.of_nat (List.length pre) + 1 /\
     In ip row /\ forall r, In r pre -> ~ In ip r).
Proof.
  intros E. unfold find_router_by_ip. rewrite E.
  destruct (find_router_from_cases ip (router_configs cfg) 0)
    as [H | (pre & row & post & H1 & H2 & H3 & H4)]; [now left | right].
  exists pre, row, post. rewrite H2. repeat split; trivial.
Qed.

Lemma find_router_by_ip_first_owner_witness :
  let cfg := {| router_configs := [["10.0.0.1"]; ["10.0.0.2"; "10.0.0.3"]; []; ["10.0.0.3"]];
                num_networks := [1; 2; 0; 1] |} in
  (find_router_by_ip cfg "10.0.0.3" = 0 /\
   forall row, In row (router_configs cfg) -> ~ In "10.0.0.3" row) \/
  (exists pre row post,
     router_configs cfg = (pre ++ row :: post)%list /\
     find_router_by_ip cfg "10.0.0.3" = Z.of_nat (List.length pre) + 1 /\
     In "10.0.0.3" row /\ forall r, In r pre -> ~ In "10.0.0.3" r).
Proof.
  apply (find_router_by_ip_first_owner
           {| router_configs := [["10.0.0.1"]; ["10.0.0.2"; "10.0.0.3"]; []; ["10.0.0.3"]];
              num_networks := [1; 2; 0; 1] |} "10.0.0.3").
  reflexivity.
Defined.

(** X4. Whatever is typed at start-up, a configuration that is loaded has
    one row per router, at most [MAX_NETWORKS_PER_ROUTER] addresses in a
    row, as many as the count read for that router, and every address in it
    fits its 16-character slot and passed [validate_ip]: out-of-range
    counts, non-numbers and invalid addresses are asked for again and never
    stored. *)
Theorem load_config_well_formed (i i' : stdin) (cfg : config) :
  load_config i = Ok (cfg, i') ->
  List.length (router_configs cfg) = Z.to_nat NUM_ROUTERS /\
  num_networks cfg = map (fun row => Z.of_nat (List.length row)) (router_configs cfg) /\
  Forall (fun n => 0 <= n <= MAX_NETWORKS_PER_ROUTER) (num_networks cfg) /\
  Forall (Forall (fun ip => scanned_ip ip = true)) (router_configs cfg).
Proof.
  intros H. pose proof (load_config_rows _ _ _ H) as L. revert H. unfold load_config.
  destruct (read_counts (Z.to_nat NUM_ROUTERS) (ints i)) as [[counts r1] | | |] eqn:C;
    try discriminate.
  cbn [bind].
  destruct (read_rows counts (words i)) as [[rows r2] | | |] eqn:R; try discriminate.
  cbn [bind]. intros H. injection H as <- _. simpl.
  apply read_counts_range in C.
  destruct (read_rows_scanned _ _ _ _ C R) as [M F].
  repeat split; trivial. now symmetry.
Qed.

Lemma load_config_well_formed_witness :
  let cfg := {| router_configs := [["10.0.0.1"]; []; ["10.0.0.3"; "10.0.0.1"]; []];
                num_networks := [1; 0; 2; 0] |} in
  load_config {| words := ["10.0.0.1"; "10.0.0"; "10.0.0.3"; "x"; "10.0.0.1"; "10.0.0.9"];
                 ints := [Some 9; Some 1; None; Some 0; Some (-2); Some 2; Some 0; Some 5] |}
  = Ok (cfg, {| words := ["10.0.0.9"]; ints := [Some 5] |}) /\
  List.length (router_configs cfg) = Z.to_nat NUM_ROUTERS /\
  num_networks cfg = map (fun row => Z.of_nat (List.length row)) (router_configs cfg) /\
  Forall (fun n => 0 <= n <= MAX_NETWORKS_PER_ROUTER) (num_networks cfg) /\
  Forall (Forall (fun ip => scanned_ip ip = true)) (router_configs cfg).
Proof.
  split; [reflexivity |].
  apply (load_config_well_formed
           {| words := ["10.0.0.1"; "10.0.0"; "10.0.0.3"; "x"; "10.0.0.1"; "10.0.0.9"];
              ints := [Some 9; Some 1; None; Some 0; Some (-2); Some 2; Some 0; Some 5] |}
           {| words := ["10.0.0.9"]; ints := [Some 5] |}).
  reflexivity.
Defined.

(** X5. The loop that reads the source or the destination address of a
    query hands on the first word typed that passes [validate_ip] and is
    listed by some router, together with that router; every word typed
    before it was invalid or unknown and is passed over, and what was typed
    after it is left on the console. *)
Theorem read_endpoint_first_known (cfg : config) (inp : list string) :
  forall ip router rest,
  read_endpoint cfg inp = Ok (ip, router, rest) ->
  exists skipped,
    inp = (skipped ++ ip :: rest)%list /\
    scanned_ip ip = true /\
    router = find_router_by_ip cfg ip /\ router <> 0 /\
    Forall (fun w => validate_ip w = false \/ find_router_by_ip cfg w = 0) skipped.
Proof.
  induction inp as [| w inp IH]; intros ip router rest; simpl; [discriminate |].
  unfold scan_word.
  destruct (Z.of_nat (length w) <? MAX_IP_LEN) eqn:L; [| discriminate]. cbn [bind].
  assert (Skip : read_endpoint cfg inp = Ok (ip, router, rest) ->
                 validate_ip w = false \/ find_router_by_ip cfg w = 0 ->
                 exists skipped,
                   (w :: inp = skipped ++ ip :: rest)%list /\
                   scanned_ip ip = true /\
                   router = find_router_by_ip cfg ip /\ router <> 0 /\
                   Forall (fun w => validate_ip w = false \/ find_router_by_ip cfg w = 0)
                          skipped).
  { intros H W. destruct (IH _ _ _ H) as (skipped & -> & S & R & N & F).
    exists (w :: skipped). repeat split; trivial. now constructor. }
  destruct (validate_ip w) eqn:V; cbn [negb]; [| intros H; apply Skip; auto].
  destruct (Z.eqb_spec (find_router_by_ip cfg w) 0) as [E | N];
    [intros H; apply Skip; auto |].
  intros H. injection H as <- <- <-. exists []. unfold scanned_ip.
  rewrite L, V. repeat split; trivial.
Qed.

Lemma read_endpoint_first_known_witness :
  let cfg := {| router_configs := [["10.0.0.1"]; []; ["10.0.0.3"]; []];
                num_networks := [1; 0; 1; 0] |} in
  read_endpoint cfg ["1.2.3"; "10.0.0.7"; "10.0.0.3"; "10.0.0.1"]
  = Ok ("10.0.0.3", 3, ["10.0.0.1"]) /\
  exists skipped,
    ["1.2.3"; "10.0.0.7"; "10.0.0.3"; "10.0.0.1"] = (skipped ++ "10.0.0.3" :: ["10.0.0.1"])%list /\
    scanned_ip "10.0.0.3" = true /\
    3 = find_router_by_ip cfg "10.0.0.3" /\ 3 <> 0 /\
    Forall (fun w => validate_ip w = false \/ find_router_by_ip cfg w = 0) skipped.
Proof.
  split; [reflexivity |].
  apply (read_endpoint_first_known
           {| router_configs := [["10.0.0.1"]; []; ["10.0.0.3"]; []];
              num_networks := [1; 0; 1; 0] |}
           ["1.2.3"; "10.0.0.7"; "10.0.0.3"; "10.0.0.1"] "10.0.0.3" 3 ["10.0.0.1"]).
  reflexivity.
Defined.

(** ** [concat_router_ids] and the encoded path *)

Section Encoding.

Lemma parse_digits_shift (v : Z) :
  forall n, 0 <= n ->
  parse_digits v (digits n) = v * 10 ^ Z.of_nat (length (digits n)) + n.
Proof.
  apply decimal_ind.
  - intros n H. rewrite parse_digits_digit, digits_small by exact H. simpl length.
    change (10 ^ Z.of_nat 1) with 10. reflexivity.
  - intros n H IH.
    assert (Hm : 0 <= n mod 10 < 10) by (apply Z.mod_pos_bound; lia).
    assert (Hq : 0 <= n / 10) by (apply Z.div_pos; lia).
    rewrite digits_step, parse_digits_snoc, IH by (trivial; now apply all_digits_digits).
    rewrite length_append. simpl length.
    replace (Z.of_nat (length (digits (n / 10)) + 1))
      with (Z.succ (Z.of_nat (length (digits (n / 10))))) by lia.
    rewrite Z.pow_succ_r by lia.
    pose proof (Z.div_mod n 10 ltac:(lia)). lia.
Qed.

Lemma decode_concat_dec (p : list Z) :
  Forall (fun id => 1 <= id <= NUM_ROUTERS) p ->
  map digit_val (list_ascii_of_string (concat_dec p)) = p.
Proof.
  unfold NUM_ROUTERS. induction 1 as [| id p Hid _ IH]; [reflexivity |].
  cbn [concat_dec fold_right]. rewrite dec_nonneg, digits_small by lia.
  cbn [append list_ascii_of_string map]. rewrite digit_val_digit_char by lia.
  f_equal. exact IH.
Qed.

Lemma length_list_ascii (s : string) : List.length (list_ascii_of_string s) = length s.
Proof. induction s as [| c s IH]; simpl; [reflexivity | now rewrite IH]. Qed.

Lemma digits_length_le (k : nat) : forall n,
  0 <= n < 10 ^ Z.of_nat (S k) -> (length (digits n) <= S k)%nat.
Proof.
  induction k as [| k IH]; intros n H.
  - change (10 ^ Z.of_nat 1) with 10 in H. rewrite digits_small by lia. simpl. lia.
  - destruct (Z_lt_ge_dec n 10) as [S | G].
    + rewrite digits_small by lia. simpl. lia.
    + rewrite digits_step, length_append by lia. simpl length.
      rewrite Nat2Z.inj_succ, Z.pow_succ_r in H by lia.
      assert (0 <= n / 10 < 10 ^ Z.of_nat (S k)).
      { split; [apply Z.div_pos; lia | apply Z.div_lt_upper_bound; lia]. }
      specialize (IH (n / 10) ltac:(assumption)). lia.
Qed.

(** Every path resolution returns, direct or assembled by hand, is a
    complete path from the source to the destination router. *)
Lemma resolve_complete (source_router dest_router : Z) (inp : list (option Z))
    (r : route) (rest : list (option Z)) :
  resolve source_router dest_router inp = Ok (r, rest) ->
  complete_path source_router dest_router (ids r).
Proof.
  unfold resolve.
  destruct (matrix_read (source_router - 1) (dest_router - 1)) as [c | | |] eqn:M;
    try discriminate.
  pose proof (matrix_read_range _ _ _ M) as [Hs Hd]. unfold NUM_ROUTERS in Hs, Hd.
  cbn [bind].
  assert (Man : forall inp', manual_route source_router dest_router inp' = Ok (r, rest) ->
                complete_path source_router dest_router (ids r)).
  { intros inp'. unfold manual_route.
    destruct (manual_loop dest_router (manual_init source_router) inp')
      as [[st rest'] | | |] eqn:L; try discriminate.
    cbn [bind]. intros H. injection H as <- <-. simpl.
    eapply manual_loop_complete; [| exact L].
    apply manual_init_inv. unfold NUM_ROUTERS. lia. }
  destruct (Z.eqb_spec c 1) as [-> | N]; [| apply Man].
  destruct inp as [| [choice |] inp']; try discriminate.
  destruct (choice =? 1); [| apply Man].
  intros H. injection H as <- <-. simpl.
  apply adjacent_read in M. split.
  - now exists [dest_router].
  - now exists [source_router].
  - simpl. now rewrite M.
  - repeat constructor; unfold NUM_ROUTERS; lia.
Qed.

End Encoding.

(** X6. [concat_router_ids] writes the new id after the digits of the
    current value: for non-negative arguments the result is the current
    value shifted left by as many decimal places as the id has digits, plus
    the id, as long as that number fits a [long long]. *)
Theorem concat_router_ids_shifts (current_val new_id : Z) :
  0 <= current_val -> 0 <= new_id ->
  current_val * 10 ^ Z.of_nat (length (dec new_id)) + new_id <= LLONG_MAX ->
  concat_router_ids current_val new_id
  = current_val * 10 ^ Z.of_nat (length (dec new_id)) + new_id.
Proof.
  intros Hv Hid. rewrite dec_nonneg by exact Hid. intros Hb.
  rewrite concat_router_ids_parse; rewrite ?parse_digits_shift; trivial.
Qed.

Lemma concat_router_ids_shifts_witness :
  0 <= 12 /\ 0 <= 304 /\
  12 * 10 ^ Z.of_nat (length (dec 304)) + 304 <= LLONG_MAX /\
  concat_router_ids 12 304 = 12 * 10 ^ Z.of_nat (length (dec 304)) + 304.
Proof.
  split; [lia |]. split; [lia |]. split; [vm_compute; discriminate |].
  apply (concat_router_ids_shifts 12 304); [lia | lia | vm_compute; discriminate].
Defined.

(** X7. A negative id is not appended: its minus sign ends the digits that
    [atoll] reads back, so the current value is returned as it was. *)
Theorem concat_router_ids_negative_id (current_val new_id : Z) :
  0 <= current_val <= LLONG_MAX -> new_id < 0 ->
  concat_router_ids current_val new_id = current_val.
Proof.
  intros Hv Hid. unfold concat_router_ids, atoll, strtoll.
  rewrite dec_nonneg by lia. unfold dec at 1.
  destruct (Z.ltb_spec new_id 0); [| lia].
  destruct (digits_head current_val ltac:(lia)) as (c & r & E & D).
  pose proof (all_digits_digits current_val ltac:(lia)) as A.
  rewrite E in *. cbn [append]. rewrite integer_value_digit by exact D.
  change (String c (r ++ String "-" (digits (- new_id))))
    with (String c r ++ String "-" (digits (- new_id))).
  rewrite parse_digits_app by exact A.
  rewrite <- E, parse_digits_digits by lia.
  cbn [parse_digits]. change (isdigit "-") with false. cbv iota.
  unfold LLONG_MIN, LLONG_MAX in *. lia.
Qed.

Lemma concat_router_ids_negative_id_witness :
  0 <= 12 <= LLONG_MAX /\ -3 < 0 /\ concat_router_ids 12 (-3) = 12.
Proof.
  split; [unfold LLONG_MAX; lia |]. split; [lia |].
  apply (concat_router_ids_negative_id 12 (-3)); [unfold LLONG_MAX; lia | lia].
Defined.

(** X8. The encoding loses nothing on the paths the program builds: the
    decimal digits of the integer resolution returns, read one by one, are
    the router ids of the path, in order. *)
Theorem encoded_path_decodes (source_router dest_router : Z) (inp : list (option Z))
    (r : route) (rest : list (option Z)) :
  resolve source_router dest_router inp = Ok (r, rest) ->
  decode_path (encoded r) = ids r.
Proof.
  intros H. unfold decode_path. rewrite (resolve_encoding _ _ _ _ _ H).
  apply decode_concat_dec. now destruct (resolve_complete _ _ _ _ _ H).
Qed.

Lemma encoded_path_decodes_witness :
  resolve 1 4 [Some 0; Some 2; Some 3; Some 4]
  = Ok ({| encoded := 1234; ids := [1; 2; 3; 4] |}, []) /\
  decode_path 1234 = [1; 2; 3; 4].
Proof.
  split; [reflexivity |].
  apply (encoded_path_decodes 1 4 [Some 0; Some 2; Some 3; Some 4]
           {| encoded := 1234; ids := [1; 2; 3; 4] |} []).
  reflexivity.
Defined.

(** X9. A resolution that ends without overrunning [intermediate_routers]
    returns at most [NUM_ROUTERS + 2] router ids: the source, up to four
    intermediate routers, the destination.  Its integer is below [10 ^ 6],
    far from the bound of [long long] on which [atoll] would stop, and its
    digits fit the 32-character buffers of [concat_router_ids]. *)
Theorem resolved_path_size (source_router dest_router : Z) (inp : list (option Z))
    (r : route) (rest : list (option Z)) :
  resolve source_router dest_router inp = Ok (r, rest) ->
  (1 <= List.length (ids r) <= Z.to_nat (NUM_ROUTERS + 2))%nat /\
  0 < encoded r < 10 ^ 6 /\
  (length (dec (encoded r)) < 32)%nat.
Proof.
  intros H. pose proof (resolve_encoded_bounded _ _ _ _ _ H) as B.
  pose proof (resolve_complete _ _ _ _ _ H) as [[tl F] _ _ R].
  assert (E : List.length (ids r) = length (dec (encoded r))).
  { rewrite <- length_list_ascii, (resolve_encoding _ _ _ _ _ H).
    rewrite <- (decode_concat_dec (ids r) R) at 1. now rewrite length_map. }
  assert (D : (length (dec (encoded r)) <= 6)%nat).
  { rewrite dec_nonneg by lia. apply digits_length_le. simpl Z.of_nat. lia. }
  assert (O : (1 <= List.length (ids r))%nat) by (rewrite F; simpl; lia).
  change (Z.to_nat (NUM_ROUTERS + 2)) with 6%nat.
  repeat split; lia.
Qed.

Lemma resolved_path_size_witness :
  resolve 1 3 [Some 2; Some 1; Some 4; Some 4; Some 0; Some 7]
  = Ok ({| encoded := 121443; ids := [1; 2; 1; 4; 4; 3] |}, [Some 7]) /\
  (1 <= List.length [1; 2; 1; 4; 4; 3] <= Z.to_nat (NUM_ROUTERS + 2))%nat /\
  0 < 121443 < 10 ^ 6 /\
  (length (dec 121443) < 32)%nat.
Proof.
  split; [reflexivity |].
  apply (resolved_path_size 1 3 [Some 2; Some 1; Some 4; Some 4; Some 0; Some 7]
           {| encoded := 121443; ids := [1; 2; 1; 4; 4; 3] |} [Some 7]).
  reflexivity.
Defined.

(** ** The manual route definition *)

Section ManualRoute.

Lemma adjacent_one_way (a b : Z) : adjacent a b = true -> adjacent b a = true.
Proof.
  intros E. pose proof (adjacent_range _ _ E) as [Ha Hb]. unfold NUM_ROUTERS in *.
  assert (Ca : a = 1 \/ a = 2 \/ a = 3 \/ a = 4) by lia.
  assert (Cb : b = 1 \/ b = 2 \/ b = 3 \/ b = 4) by lia.
  destruct Ca as [-> | [-> | [-> | ->]]]; destruct Cb as [-> | [-> | [-> | ->]]];
    first [reflexivity | discriminate E].
Qed.

Lemma adjacent_sym (a b : Z) : adjacent a b = adjacent b a.
Proof.
  destruct (adjacent a b) eqn:E; destruct (adjacent b a) eqn:E'; try reflexivity.
  - apply adjacent_one_way in E. congruence.
  - apply adjacent_one_way in E'. congruence.
Qed.

Lemma chain_adjacent_app (p : list Z) : forall a b q,
  chain_adjacent ((p ++ [a]) ++ b :: q)
  = chain_adjacent (p ++ [a]) && adjacent a b && chain_adjacent (b :: q).
Proof.
  induction p as [| x p IH]; intros a b q.
  - reflexivity.
  - destruct p as [| y p].
    + cbn [app chain_adjacent]. now rewrite ?andb_true_r, ?andb_assoc.
    + specialize (IH a b q). cbn [app] in IH |- *.
      change (chain_adjacent (x :: y :: (p ++ [a]) ++ b :: q))
        with (adjacent x y && chain_adjacent (y :: (p ++ [a]) ++ b :: q)).
      change (chain_adjacent (x :: y :: p ++ [a]))
        with (adjacent x y && chain_adjacent (y :: p ++ [a])).
      rewrite IH, !andb_assoc. reflexivity.
Qed.

Lemma chain_adjacent_rev (p : list Z) : chain_adjacent (rev p) = chain_adjacent p.
Proof.
  induction p as [| a p IH]; [reflexivity |].
  destruct p as [| b q]; [reflexivity |].
  cbn [rev] in IH |- *.
  change (chain_adjacent (a :: b :: q)) with (adjacent a b && chain_adjacent (b :: q)).
  rewrite <- IH.
  replace ((rev q ++ [b]) ++ [a])%list with ((rev q ++ [b]) ++ a :: [])%list by reflexivity.
  rewrite chain_adjacent_app. cbn [chain_adjacent]. rewrite andb_true_r.
  rewrite (adjacent_sym b a). apply andb_comm.
Qed.

End ManualRoute.

(** X10. When source and destination router differ, what the program
    prints as the established path (the source, the stored intermediate
    routers, the destination) is the path that its integer spells: the two
    renderings of a manually defined route agree. *)
Theorem printed_path_spells_route (source_router dest_router : Z)
    (inp : list (option Z)) (st : manual_state) (rest : list (option Z)) :
  1 <= source_router <= NUM_ROUTERS -> source_router <> dest_router ->
  manual_loop dest_router (manual_init source_router) inp = Ok (st, rest) ->
  decode_path (route_path st) = displayed_path source_router dest_router st.
Proof.
  intros Hs N L.
  rewrite <- (manual_route_displayed _ _ _ _ _ N L).
  destruct (manual_loop_complete source_router dest_router inp _ _ _
              (manual_init_inv source_router Hs) L) as ([_ _ _ R] & E & _).
  unfold decode_path. rewrite E. now apply decode_concat_dec.
Qed.

Lemma printed_path_spells_route_witness :
  let st := {| current_router := 2; route_path := 14123; path_ids := [1; 4; 1; 2; 3];
               intermediate_routers := [4; 1; 2; 0]; router_index := 3 |} in
  1 <= 1 <= NUM_ROUTERS /\ 1 <> 3 /\
  manual_loop 3 (manual_init 1) [Some 4; Some 1; Some 2; Some 0] = Ok (st, []) /\
  decode_path (route_path st) = displayed_path 1 3 st.
Proof.
  intros st.
  split; [unfold NUM_ROUTERS; lia |]. split; [lia |]. split; [reflexivity |].
  apply (printed_path_spells_route 1 3 [Some 4; Some 1; Some 2; Some 0] st []);
    [unfold NUM_ROUTERS; lia | lia | reflexivity].
Defined.

(** X11. Rejected proposals leave no trace: away from the destination, any
    run of rejected inputs (ids out of range, non-numbers, routers not
    linked to the current one, finalize requests that cannot be honoured) is
    passed over, and the loop is where it was, before the input that
    follows. *)
Theorem rejected_inputs_are_skipped (dest_router : Z) (st : manual_state)
    (rejects rest : list (option Z)) :
  1 <= current_router st <= NUM_ROUTERS -> 1 <= dest_router <= NUM_ROUTERS ->
  current_router st <> dest_router ->
  Forall (fun scanned => rejected dest_router st scanned = true) rejects ->
  manual_loop dest_router st (rejects ++ rest) = manual_loop dest_router st rest.
Proof.
  intros Hc Hd N. induction 1 as [| scanned rejects R _ IH]; [reflexivity |].
  cbn [app]. now rewrite rejected_prompts_again.
Qed.

Lemma rejected_inputs_are_skipped_witness :
  1 <= current_router (manual_init 1) <= NUM_ROUTERS /\ 1 <= 3 <= NUM_ROUTERS /\
  current_router (manual_init 1) <> 3 /\
  Forall (fun scanned => rejected 3 (manual_init 1) scanned = true)
         [Some 0; Some 9; None; Some 3; Some (-1)] /\
  manual_loop 3 (manual_init 1) ([Some 0; Some 9; None; Some 3; Some (-1)] ++ [Some 2; Some 0])
  = manual_loop 3 (manual_init 1) [Some 2; Some 0].
Proof.
  assert (R : Forall (fun scanned => rejected 3 (manual_init 1) scanned = true)
                     [Some 0; Some 9; None; Some 3; Some (-1)])
    by (repeat (apply Forall_cons; [reflexivity |]); apply Forall_nil).
  split; [simpl; unfold NUM_ROUTERS; lia |]. split; [unfold NUM_ROUTERS; lia |].
  split; [simpl; lia |]. split; [exact R |].
  apply (rejected_inputs_are_skipped 3 (manual_init 1)
           [Some 0; Some 9; None; Some 3; Some (-1)] [Some 2; Some 0]);
    [simpl; unfold NUM_ROUTERS; lia | unfold NUM_ROUTERS; lia | simpl; lia | exact R].
Defined.



(** X13. No query is a dead end: between any two routers the manual route
    definition can be brought to an end with at most two inputs, a
    finalize request if the two are linked, one intermediate router and a
    finalize request if they are not. *)
Theorem every_pair_can_be_routed (source_router dest_router : Z) :
  1 <= source_router <= NUM_ROUTERS -> 1 <= dest_router <= NUM_ROUTERS ->
  exists inp r,
    (List.length inp <= 2)%nat /\
    manual_route source_router dest_router inp = Ok (r, []) /\
    (List.length (ids r) <= 3)%nat.
Proof.
  unfold NUM_ROUTERS. intros Hs Hd.
  assert (Cs : source_router = 1 \/ source_router = 2 \/ source_router = 3
               \/ source_router = 4) by lia.
  assert (Cd : dest_router = 1 \/ dest_router = 2 \/ dest_router = 3
               \/ dest_router = 4) by lia.
  destruct Cs as [-> | [-> | [-> | ->]]]; destruct Cd as [-> | [-> | [-> | ->]]];
    first [ exists [Some 0]; eexists; split; [simpl; lia | split; [reflexivity | simpl; lia]]
          | exists [Some 2; Some 0]; eexists;
            split; [simpl; lia | split; [reflexivity | simpl; lia]]
          | exists [Some 1; Some 0]; eexists;
            split; [simpl; lia | split; [reflexivity | simpl; lia]] ].
Qed.

Lemma every_pair_can_be_routed_witness :
  1 <= 2 <= NUM_ROUTERS /\ 1 <= 4 <= NUM_ROUTERS /\
  exists inp r,
    (List.length inp <= 2)%nat /\
    manual_route 2 4 inp = Ok (r, []) /\
    (List.length (ids r) <= 3)%nat.
Proof.
  split; [unfold NUM_ROUTERS; lia |]. split; [unfold NUM_ROUTERS; lia |].
  apply (every_pair_can_be_routed 2 4); unfold NUM_ROUTERS; lia.
Defined.

(** X14. The links of [connection_matrix] go both ways, so a route can be
    walked back: a sequence of routers in which every two neighbours are
    linked is still one when reversed. *)
Theorem route_can_be_reversed (p : list Z) :
  chain_adjacent p = true -> chain_adjacent (rev p) = true.
Proof. intros H. now rewrite chain_adjacent_rev. Qed.

Lemma route_can_be_reversed_witness :
  chain_adjacent [1; 2; 3; 4; 1] = true /\ chain_adjacent (rev [1; 2; 3; 4; 1]) = true.
Proof.
  split; [reflexivity |]. apply (route_can_be_reversed [1; 2; 3; 4; 1]). reflexivity.
Defined.

(** ** The route history over a session *)

Section Session.

Lemma history_scan_miss (key : string) (h : history) : forall l2,
  0 <= l2 -> history_scan key h l2 = -1 -> ~ In key (map fst h).
Proof.
  induction h as [| [k p] h IH]; intros l2 Hl; simpl; [tauto |].
  destruct (String.eqb_spec k key) as [E | N]; [lia |].
  intros H [E | I]; [contradiction |]. apply (IH (l2 + 1)); trivial. lia.
Qed.

(** The three ways a query can end. *)
Lemma serve_query_cases (h : history) (s d : string) (sr dr : Z)
    (inp : list (option Z)) (rep : report) (h' : history) (rest : list (option Z)) :
  serve_query h s d sr dr inp = Ok (rep, h', rest) ->
  (exists path, rep = HistoryFound path /\ h' = h /\ rest = inp) \/
  (exists r,
     resolve sr dr inp = Ok (r, rest) /\
     history_scan (route_key s d) h 0 = -1 /\
     ((rep = NewRouteLogged r /\ h' = (h ++ [(route_key s d, encoded r)])%list /\
       history_count h < MAX_ROUTE_HISTORY) \/
      (rep = HistoryFull r /\ h' = h /\ MAX_ROUTE_HISTORY <= history_count h))).
Proof.
  unfold serve_query.
  destruct (Z.eqb_spec (history_scan (route_key s d) h 0) (-1)) as [E | N]; cbn [negb].
  - destruct (resolve sr dr inp) as [[r rest'] | | |]; try discriminate.
    cbn [bind]. unfold save_history.
    destruct (Z.ltb_spec (history_count h) MAX_ROUTE_HISTORY) as [G | G];
      intros H; injection H as <- <- <-; right; exists r; auto 10.
  - destruct (array_get _ _ _) as [e | | |]; try discriminate.
    cbn [bind]. intros H. injection H as <- <- <-. left. now exists (snd e).
Qed.

(** Induction over a session: a relation between the history before, the
    reports and the history after holds of every run of the routing loop if
    it holds of the run that serves nothing and is carried backwards over
    one served query. *)
Lemma routing_loop_steps (cfg : config) (P : history -> list report -> history -> Prop) :
  (forall h, P h [] h) ->
  (forall h s d inp rep h1 rest reps h2,
     history_count h < MAX_ROUTE_HISTORY ->
     scanned_ip s = true -> scanned_ip d = true ->
     find_router_by_ip cfg s <> 0 -> find_router_by_ip cfg d <> 0 ->
     serve_query h s d (find_router_by_ip cfg s) (find_router_by_ip cfg d) inp
     = Ok (rep, h1, rest) ->
     P h1 reps h2 -> P h (rep :: reps) h2) ->
  forall bound continue_flag h i reps h' i',
  routing_loop bound cfg continue_flag h i = Ok (reps, h', i') -> P h reps h'.
Proof.
  intros Base Step. induction bound as [| bound IH]; intros continue_flag h i reps h' i';
    cbn [routing_loop];
    destruct (continue_flag =? 0); cbn [andb];
    try (intros H; injection H as <- <- <-; apply Base);
    destruct (Z.ltb_spec (history_count h) MAX_ROUTE_HISTORY) as [G | G];
    try discriminate;
    try (intros H; injection H as <- <- <-; apply Base).
  unfold routing_query.
  destruct (read_endpoint cfg (words i)) as [[[s sr] w1] | | |] eqn:Rs; try discriminate.
  cbn [bind].
  destruct (read_endpoint cfg w1) as [[[d dr] w2] | | |] eqn:Rd; try discriminate.
  cbn [bind].
  apply read_endpoint_scanned in Rs as (Ss & -> & Ns).
  apply read_endpoint_scanned in Rd as (Sd & -> & Nd).
  destruct (serve_query h s d _ _ (ints i)) as [[[rep h1] ints1] | | |] eqn:Q;
    try discriminate.
  cbn [bind words ints].
  destruct (read_continue ints1) as [[flag ints'] | | |]; try discriminate.
  cbn [bind].
  destruct (routing_loop bound cfg flag h1 _) as [[[reps1 h2] i2] | | |] eqn:R;
    try discriminate.
  cbn [bind]. intros H. injection H as <- <- <-.
  apply IH in R. now apply (Step h s d (ints i) rep h1 ints1 reps1 h2).
Qed.

End Session.

(** X15. A route that was logged is found again: when a query ends with a
    new route logged, the same two address strings asked again, at once or
    after any later queries were logged, are answered from the history with
    the integer that was stored, whatever routers and further input are
    supplied; nothing is read from the console and the history stays as it
    is. *)
Theorem logged_route_is_found_again (h : history) (source_ip destination_ip : string)
    (source_router dest_router : Z) (inp : list (option Z))
    (r : route) (h' : history) (rest : list (option Z)) :
  serve_query h source_ip destination_ip source_router dest_router inp
  = Ok (NewRouteLogged r, h', rest) ->
  forall later source_router' dest_router' inp',
    serve_query (h' ++ later)%list source_ip destination_ip
      source_router' dest_router' inp'
    = Ok (HistoryFound (encoded r), (h' ++ later)%list, inp').
Proof.
  intros Q later sr' dr' inp'.
  destruct (serve_query_cases _ _ _ _ _ _ _ _ _ Q)
    as [(path & E & _) | (r' & _ & M & [(E & -> & _) | (E & _)])]; try discriminate.
  injection E as <-.
  assert (S : forall l2, 0 <= l2 ->
              history_scan (route_key source_ip destination_ip) h l2 = -1 ->
              history_scan (route_key source_ip destination_ip)
                ((h ++ [(route_key source_ip destination_ip, encoded r)]) ++ later)%list l2
              = l2 + Z.of_nat (List.length h)).
  { clear. induction h as [| [k p] h IH]; intros l2 Hl; simpl.
    - intros _. rewrite String.eqb_refl. lia.
    - destruct (String.eqb_spec k (route_key source_ip destination_ip)); [lia |].
      intros H. rewrite (IH (l2 + 1)) by (trivial; lia). lia. }
  unfold serve_query. rewrite (S 0 ltac:(lia) M). simpl Z.add.
  assert (K : (Z.of_nat (List.length h) =? -1) = false) by (apply Z.eqb_neq; lia).
  rewrite K. cbn [negb]. unfold array_get.
  assert (K0 : (Z.of_nat (List.length h) <? 0) = false) by (apply Z.ltb_ge; lia).
  rewrite K0, Nat2Z.id, <- app_assoc, nth_error_app2, Nat.sub_diag by lia.
  reflexivity.
Qed.

Lemma logged_route_is_found_again_witness :
  serve_query [("10.0.1.1*10.0.3.1", 123)] "10.0.1.1" "10.0.4.1" 1 4 [Some 1; Some 0]
  = Ok (NewRouteLogged {| encoded := 14; ids := [1; 4] |},
        [("10.0.1.1*10.0.3.1", 123); ("10.0.1.1*10.0.4.1", 14)], [Some 0]) /\
  forall later source_router' dest_router' inp',
    serve_query ([("10.0.1.1*10.0.3.1", 123); ("10.0.1.1*10.0.4.1", 14)] ++ later)%list
      "10.0.1.1" "10.0.4.1" source_router' dest_router' inp'
    = Ok (HistoryFound (encoded {| encoded := 14; ids := [1; 4] |}),
          ([("10.0.1.1*10.0.3.1", 123); ("10.0.1.1*10.0.4.1", 14)] ++ later)%list, inp').
Proof.
  split; [reflexivity |].
  apply (logged_route_is_found_again [("10.0.1.1*10.0.3.1", 123)] "10.0.1.1" "10.0.4.1"
           1 4 [Some 1; Some 0] {| encoded := 14; ids := [1; 4] |}
           [("10.0.1.1*10.0.3.1", 123); ("10.0.1.1*10.0.4.1", 14)] [Some 0]).
  reflexivity.
Defined.

(** X16. The history only grows at its end and never beyond its
    capacity: over any run of the routing loop the history it ends with is
    the one it started with followed by one entry per "new route logged"
    report, and it holds at most [MAX_ROUTE_HISTORY] entries.  No
    entry is overwritten, moved or dropped, and every write to
    [route_history] and [intermediate_history] is at an index below their
    size. *)
Theorem history_is_append_only (bound : nat) (cfg : config) (continue_flag : Z)
    (h : history) (i : stdin) (reps : list report) (h' : history) (i' : stdin) :
  history_count h <= MAX_ROUTE_HISTORY ->
  routing_loop bound cfg continue_flag h i = Ok (reps, h', i') ->
  exists added,
    h' = (h ++ added)%list /\
    List.length added = List.length (filter is_logged reps) /\
    history_count h' <= MAX_ROUTE_HISTORY.
Proof.
  intros C R. revert C.
  refine (routing_loop_steps cfg
            (fun h reps h' =>
               history_count h <= MAX_ROUTE_HISTORY ->
               exists added,
                 h' = (h ++ added)%list /\
                 List.length added = List.length (filter is_logged reps) /\
                 history_count h' <= MAX_ROUTE_HISTORY)
            _ _ bound continue_flag h i reps h' i' R).
  - intros h0 C. exists []. rewrite app_nil_r. auto.
  - intros h0 s d inp rep h1 rest reps0 h2 G _ _ _ _ Q IH C.
    destruct (serve_query_cases _ _ _ _ _ _ _ _ _ Q)
      as [(path & -> & -> & _) | (r & _ & _ & [(-> & -> & _) | (_ & _ & F)])].
    + exact (IH C).
    + destruct IH as (added & -> & L & C').
      { unfold history_count in *. rewrite length_app. simpl List.length. lia. }
      exists ((route_key s d, encoded r) :: added). rewrite <- app_assoc in C' |- *.
      repeat split; [simpl; now rewrite L | exact C'].
    + lia.
Qed.

Lemma history_is_append_only_witness :
  let cfg := {| router_configs := [["10.0.1.1"]; []; ["10.0.3.1"]; ["10.0.4.1"]];
                num_networks := [1; 0; 1; 1] |} in
  let h := [("10.0.1.1*10.0.3.1", 123)] in
  let console := {| words := ["10.0.1.1"; "10.0.3.1"; "10.0.1.1"; "10.0.4.1"];
                    ints := [Some 0; Some 1; Some 1] |} in
  history_count h <= MAX_ROUTE_HISTORY /\
  routing_loop 5 cfg 0 h console
  = Ok ([HistoryFound 123; NewRouteLogged {| encoded := 14; ids := [1; 4] |}],
        [("10.0.1.1*10.0.3.1", 123); ("10.0.1.1*10.0.4.1", 14)],
        {| words := []; ints := [] |}) /\
  exists added,
    [("10.0.1.1*10.0.3.1", 123); ("10.0.1.1*10.0.4.1", 14)] = (h ++ added)%list /\
    List.length added
    = List.length (filter is_logged
                     [HistoryFound 123; NewRouteLogged {| encoded := 14; ids := [1; 4] |}]) /\
    history_count [("10.0.1.1*10.0.3.1", 123); ("10.0.1.1*10.0.4.1", 14)]
    <= MAX_ROUTE_HISTORY.
Proof.
  intros cfg h console.
  split; [vm_compute; discriminate |]. split; [reflexivity |].
  apply (history_is_append_only 5 cfg 0 h console
           [HistoryFound 123; NewRouteLogged {| encoded := 14; ids := [1; 4] |}]
           [("10.0.1.1*10.0.3.1", 123); ("10.0.1.1*10.0.4.1", 14)]
           {| words := []; ints := [] |});
    [vm_compute; discriminate | reflexivity].
Defined.

Lemma NoDup_snoc {A : Type} (l : list A) (x : A) :
  NoDup l -> ~ In x l -> NoDup (l ++ [x]).
Proof.
  induction 1 as [| y l Hy _ IH]; intros N; simpl.
  - constructor; [tauto | constructor].
  - constructor.
    + rewrite in_app_iff. intros [I | [E | []]]; [contradiction |].
      apply N. now left.
    + apply IH. intros I. apply N. now right.
Qed.

Lemma route_key_length (s d : string) :
  scanned_ip s = true -> scanned_ip d = true ->
  Z.of_nat (length (route_key s d)) < MAX_IP_LEN * 2 + 1.
Proof.
  unfold scanned_ip, route_key, MAX_IP_LEN. intros Hs Hd.
  apply andb_true_iff in Hs as [Hs _]. apply andb_true_iff in Hd as [Hd _].
  apply Z.ltb_lt in Hs. apply Z.ltb_lt in Hd.
  rewrite !length_append. simpl length. lia.
Qed.

(** X17. No query is logged twice: if the keys of the history are pairwise
    different before a run of the routing loop, they are after it.  A query
    is logged only after the scan of the whole history found no entry with
    its key. *)
Theorem history_keys_stay_distinct (bound : nat) (cfg : config) (continue_flag : Z)
    (h : history) (i : stdin) (reps : list report) (h' : history) (i' : stdin) :
  NoDup (map fst h) ->
  routing_loop bound cfg continue_flag h i = Ok (reps, h', i') ->
  NoDup (map fst h').
Proof.
  intros D R. revert D.
  refine (routing_loop_steps cfg
            (fun h reps h' => NoDup (map fst h) -> NoDup (map fst h'))
            _ _ bound continue_flag h i reps h' i' R).
  - auto.
  - intros h0 s d inp rep h1 rest reps0 h2 G _ _ _ _ Q IH D.
    destruct (serve_query_cases _ _ _ _ _ _ _ _ _ Q)
      as [(path & _ & -> & _) | (r & _ & M & [(_ & -> & _) | (_ & -> & _)])];
      try exact (IH D).
    apply IH. rewrite map_app. apply NoDup_snoc; [exact D |].
    now apply (history_scan_miss _ _ 0 ltac:(lia)).
Qed.

Lemma history_keys_stay_distinct_witness :
  let cfg := {| router_configs := [["10.0.1.1"]; []; ["10.0.3.1"]; ["10.0.4.1"]];
                num_networks := [1; 0; 1; 1] |} in
  let h := [("10.0.1.1*10.0.3.1", 123)] in
  let console := {| words := ["10.0.1.1"; "10.0.3.1"; "10.0.1.1"; "10.0.4.1"];
                    ints := [Some 0; Some 1; Some 1] |} in
  NoDup (map fst h) /\
  routing_loop 5 cfg 0 h console
  = Ok ([HistoryFound 123; NewRouteLogged {| encoded := 14; ids := [1; 4] |}],
        [("10.0.1.1*10.0.3.1", 123); ("10.0.1.1*10.0.4.1", 14)],
        {| words := []; ints := [] |}) /\
  NoDup (map fst [("10.0.1.1*10.0.3.1", 123); ("10.0.1.1*10.0.4.1", 14)]).
Proof.
  intros cfg h console.
  assert (D : NoDup (map fst h)) by (constructor; [intros [] | constructor]).
  split; [exact D |]. split; [reflexivity |].
  apply (history_keys_stay_distinct 5 cfg 0 h console
           [HistoryFound 123; NewRouteLogged {| encoded := 14; ids := [1; 4] |}]
           [("10.0.1.1*10.0.3.1", 123); ("10.0.1.1*10.0.4.1", 14)]
           {| words := []; ints := [] |});
    [exact D | reflexivity].
Defined.

(** X18. The warning "Route history full" is never given: no run of the
    routing loop, from any history and on any input, reports a resolved
    route that could not be logged.  The loop is left as soon as the history
    is full, before the query that would meet the full history. *)
Theorem history_full_is_never_reported (bound : nat) (cfg : config) (continue_flag : Z)
    (h : history) (i : stdin) :
  match routing_loop bound cfg continue_flag h i with
  | Ok (reps, _, _) => existsb is_full reps = false
  | _ => True
  end.
Proof.
  destruct (routing_loop bound cfg continue_flag h i) as [[[reps h'] i'] | | |] eqn:R;
    trivial.
  refine (routing_loop_steps cfg (fun _ reps _ => existsb is_full reps = false)
            _ _ bound continue_flag h i reps h' i' R).
  - reflexivity.
  - intros h0 s d inp rep h1 rest reps0 h2 G _ _ _ _ Q IH.
    destruct (serve_query_cases _ _ _ _ _ _ _ _ _ Q)
      as [(path & -> & _) | (r & _ & _ & [(-> & _) | (_ & _ & F)])];
      [exact IH | exact IH | lia].
Qed.

(** X19. Every route the program stores is sound.  After any session, from
    start-up on, each entry of the history has a key made of two addresses
    that routers of the loaded configuration own, the key fits its row of
    [route_history], and the stored integer spells a path that starts at
    the router of the source address, ends at the router of the destination
    address and follows links of [connection_matrix] all the way. *)
Theorem stored_routes_are_sound (bound : nat) (i : stdin)
    (reps : list report) (h : history) (i' : stdin) :
  run_routing_simulation bound i = Ok (reps, h, i') ->
  exists cfg left,
    load_config i = Ok (cfg, left) /\ Forall (sound_entry cfg) h.
Proof.
  unfold run_routing_simulation.
  destruct (load_config i) as [[cfg left] | | |]; try discriminate.
  cbn [bind]. intros R. exists cfg, left. split; [reflexivity |].
  assert (Base : Forall (sound_entry cfg) []) by constructor. revert Base.
  refine (routing_loop_steps cfg
            (fun h reps h' => Forall (sound_entry cfg) h -> Forall (sound_entry cfg) h')
            _ _ bound 0 [] left reps h i' R).
  - auto.
  - intros h0 s d inp rep h1 rest reps0 h2 G Ss Sd Ns Nd Q IH F.
    destruct (serve_query_cases _ _ _ _ _ _ _ _ _ Q)
      as [(path & _ & -> & _) | (r & Res & _ & [(_ & -> & _) | (_ & -> & _)])];
      try exact (IH F).
    apply IH. apply Forall_app. split; [exact F |]. constructor; [| constructor].
    exists s, d, (ids r). cbn [fst snd].
    repeat split; trivial.
    + now apply route_key_length.
    + eapply path_first, resolve_complete, Res.
    + eapply path_last, resolve_complete, Res.
    + eapply path_chain, resolve_complete, Res.
    + eapply path_range, resolve_complete, Res.
    + eapply resolve_encoding, Res.
Qed.

Lemma stored_routes_are_sound_witness :
  let console := {| words := ["10.0.1.1"; "10.0.3.1";
                              "10.0.1.1"; "10.0.3.1"; "10.0.3.1"; "10.0.1.1"];
                    ints := [Some 1; Some 0; Some 1; Some 0;
                             Some 2; Some 0; Some 0; Some 4; Some 0; Some 1] |} in
  run_routing_simulation 3 console
  = Ok ([NewRouteLogged {| encoded := 123; ids := [1; 2; 3] |};
         NewRouteLogged {| encoded := 341; ids := [3; 4; 1] |}],
        [("10.0.1.1*10.0.3.1", 123); ("10.0.3.1*10.0.1.1", 341)],
        {| words := []; ints := [] |}) /\
  exists cfg left,
    load_config console = Ok (cfg, left) /\
    Forall (sound_entry cfg) [("10.0.1.1*10.0.3.1", 123); ("10.0.3.1*10.0.1.1", 341)].
Proof.
  intros console. split; [reflexivity |].
  apply (stored_routes_are_sound 3 console
           [NewRouteLogged {| encoded := 123; ids := [1; 2; 3] |};
            NewRouteLogged {| encoded := 341; ids := [3; 4; 1] |}]
           [("10.0.1.1*10.0.3.1", 123); ("10.0.3.1*10.0.1.1", 341)]
           {| words := []; ints := [] |}).
  reflexivity.
Defined.
